(** * NativeScript-angular legacy router: route reuse, page outlet, action bar

    A shallow embedding of
    - [ns-route-reuse-strategy.ts]: [DetachedStateCache] and
      [NSRouteReuseStrategy];
    - [page-router-outlet.ts]: the activation state of [PageRouterOutlet];
    - the action-bar directive file: [actionBarMeta] and its helpers.

    Conventions of the embedding.
    - JavaScript objects that are mutated and shared (outlets, route
      snapshots carrying the page-router-activated symbol, views) are
      references ([nat]) into explicit stores; methods pass the store.
    - Values whose JavaScript type is wider than the declared TypeScript
      one (the result of [shouldDetach], the [shouldDetach] field of an
      outlet, the symbol property of a snapshot) are [JSVal]s.
    - [throw] is a [Throw] completion carrying the state at the throw.
    - Calls to [NativeScriptDebug] only write a trace and are left out. *)

From Equations Require Import Equations.
From stdpp Require Import gmap strings list.

(** ** JavaScript values and completions *)

Inductive JSVal : Type :=
| JSNull
| JSUndefined
| JSBool (b : bool)
| JSRef (r : nat).

#[global] Instance JSVal_eq_dec : EqDecision JSVal.
Proof. solve_decision. Defined.

(** [!!v] *)
Definition truthy (v : JSVal) : bool :=
  match v with
  | JSBool b => b
  | JSRef _ => true
  | JSNull | JSUndefined => false
  end.

(** [a && b] *)
Definition js_and (a b : JSVal) : JSVal := if truthy a then b else a.

Inductive Error : Type :=
| ErrorMsg (message : string)
| TypeError.

Inductive Completion (A : Type) : Type :=
| Normal (a : A)
| Throw (e : Error).
Arguments Normal {A} a.
Arguments Throw {A} e.

(** [Array.prototype.includes] on an array of strings. *)
Definition includes (xs : list string) (x : string) : bool :=
  existsb (String.eqb x) xs.

(** ** Route snapshots

    An [ActivatedRouteSnapshot] is an object of the router: [oid] is its
    identity, [toString] what [Array.prototype.join] prints for it,
    [routeConfig] the identity of its route configuration object (or
    [null]) and [parent] its parent in the router state tree.  The
    [children] of a snapshot live in [SnapshotTree] below. *)

Module ActivatedRouteSnapshot.

#[local] Unset Elimination Schemes.
Inductive t : Type :=
  Make { oid : nat;
         toString : string;
         routeConfig : option nat;
         parent : option t }.
#[local] Set Elimination Schemes.

(** Induction along the chain of parents. *)
Fixpoint parent_ind (P : t -> Prop)
  (Hroot : forall snapshot, parent snapshot = None -> P snapshot)
  (Hstep : forall snapshot p, parent snapshot = Some p -> P p -> P snapshot)
  (snapshot : t) : P snapshot :=
  match snapshot as s return P s with
  | Make i str cfg None => Hroot (Make i str cfg None) eq_refl
  | Make i str cfg (Some p) =>
      Hstep (Make i str cfg (Some p)) p eq_refl (parent_ind P Hroot Hstep p)
  end.

(** The router's [pathFromRoot]: the chain of parents, root first. *)
Fixpoint pathFromRoot (snapshot : t) : list t :=
  match parent snapshot with
  | Some p => pathFromRoot p ++ [snapshot]
  | None => [snapshot]
  end.

End ActivatedRouteSnapshot.

Abbreviation Snapshot := ActivatedRouteSnapshot.t.

(** [snapshot.pathFromRoot.join('->')] *)
Definition getSnapshotKey (snapshot : Snapshot) : string :=
  String.concat "->"
    (map ActivatedRouteSnapshot.toString
         (ActivatedRouteSnapshot.pathFromRoot snapshot)).

(** The property [snapshot[pageRouterActivatedSymbol]] of every snapshot,
    keyed by the identity of the snapshot; an absent key reads
    [undefined]. *)
Abbreviation Marks := (gmap nat JSVal).

Definition getMark (marks : Marks) (snapshot : Snapshot) : JSVal :=
  default JSUndefined (marks !! ActivatedRouteSnapshot.oid snapshot).

Definition setMark (snapshot : Snapshot) (v : JSVal) (marks : Marks) : Marks :=
  <[ActivatedRouteSnapshot.oid snapshot := v]> marks.

(** ** Outlets of the location strategy *)

Module Outlet.

Record t : Type :=
  Make { isPageNavigationBack : bool;
         shouldDetach : JSVal;
         outletKeys : list string;
         parent : option nat;
         frames : list nat }.

Definition setShouldDetach (v : JSVal) (o : t) : t :=
  {| isPageNavigationBack := isPageNavigationBack o;
     shouldDetach := v;
     outletKeys := outletKeys o;
     parent := parent o;
     frames := frames o |}.

End Outlet.

(** The store of [Outlet] objects: a reference is a [nat]. *)
Definition OutletStore : Type := nat -> Outlet.t.

Definition updateOutlet (ref : nat) (f : Outlet.t -> Outlet.t)
  (outlets : OutletStore) : OutletStore :=
  fun r => if Nat.eqb r ref then f (outlets r) else outlets r.

(** The part of [NSLocationStrategy] the router code calls.  The class is
    not among the sources; its methods are parameters of the model. *)
Record NSLocationStrategy : Type :=
  { getRouteFullPath : Snapshot -> string;
    findOutlet : string -> Snapshot -> option nat;
    _modalNavigationDepth : Z }.

(** ** Detached state cache *)

Definition ComponentRef : Type := nat.

(** A [DetachedRouteHandle] as the router builds it; only its
    [componentRef] (possibly [undefined]) is read here, [handleId] stands
    for the rest of the object. *)
Record DetachedRouteHandle : Type :=
  { handleId : nat;
    componentRef : option ComponentRef }.

Module CacheItem.

Record t : Type :=
  Make { key : string;
         state : DetachedRouteHandle;
         isModal : bool }.

End CacheItem.

Abbreviation CacheItem := CacheItem.t.

Definition NoComponentRef : Error :=
  ErrorMsg "No componentRef found in DetachedRouteHandle".

Module DetachedStateCache.

(** The private array [cache], in index order. *)
Record t : Type := Make { cache : list CacheItem }.

Definition new : t := {| cache := [] |}.

Definition length (this : t) : nat := List.length (cache this).

Definition push (cacheItem : CacheItem) (this : t) : t :=
  {| cache := cache this ++ [cacheItem] |}.

Definition pop (this : t) : option CacheItem * t :=
  (last (cache this), {| cache := removelast (cache this) |}).

(** [this.cache[this.cache.length - 1]]; index [-1] reads [undefined]. *)
Definition peek (this : t) : option CacheItem * t :=
  (match List.length (cache this) with
   | 0 => None
   | S n => cache this !! n
   end, this).

Definition inspect {A : Type} (a : A) : {b : A | a = b} := exist _ a eq_refl.

Lemma peek_pop_shorter (this : t) (cacheItem : CacheItem) :
  fst (peek this) = Some cacheItem ->
  List.length (cache (snd (pop this))) < List.length (cache this).
Proof.
  destruct this as [c]; simpl.
  destruct c as [|y c]; [discriminate|]; intros _.
  assert (Hne : y :: c <> []) by discriminate.
  destruct (exists_last Hne) as (l & a & ->).
  rewrite removelast_last, length_app; simpl; lia.
Qed.

(** The [while (!modalCacheCleared)] loop of [clearModalCache]; [log] is
    the list of component refs handed to [destroyComponentRef] so far. *)
Equations? clearModalLoop (this : t) (log : list ComponentRef)
  : Completion unit * t * list ComponentRef
  by wf (List.length (cache this)) lt :=
  clearModalLoop this log with inspect (fst (peek this)) := {
    | exist _ None _ => (Throw TypeError, this, log)
    | exist _ (Some cacheItem) Hpeek
        with componentRef (CacheItem.state cacheItem) := {
        | None => (Throw NoComponentRef, this, log)
        | Some ref with CacheItem.isModal cacheItem := {
            | true => (Normal tt, snd (pop this), log ++ [ref])
            | false => clearModalLoop (snd (pop this)) (log ++ [ref]) } } }.
Proof. eapply peek_pop_shorter; eauto. Qed.

Definition clearModalCache (this : t) (log : list ComponentRef)
  : Completion unit * t * list ComponentRef :=
  let hasModalPages := existsb CacheItem.isModal (cache this) in
  if hasModalPages then clearModalLoop this log
  else (Normal tt, this, log).

Lemma pop_shorter (this : t) (n : nat) :
  List.length (cache this) = S n ->
  List.length (cache (snd (pop this))) < List.length (cache this).
Proof.
  destruct this as [c]; simpl.
  destruct c as [|x c] using rev_ind; [discriminate|]; intros _.
  rewrite removelast_last, length_app; simpl; lia.
Qed.

(** [clear]: the loop [while (this.cache.length > 0)], which pops before
    it looks at the handle; [log] as in [clearModalLoop]. *)
Equations? clear (this : t) (log : list ComponentRef)
  : Completion unit * t * list ComponentRef
  by wf (List.length (cache this)) lt :=
  clear this log with inspect (List.length (cache this)) := {
    | exist _ 0 _ => (Normal tt, this, log)
    | exist _ (S n) Hlen with fst (pop this) := {
        | None => (Throw TypeError, snd (pop this), log)
        | Some cacheItem
            with componentRef (CacheItem.state cacheItem) := {
            | None => (Throw NoComponentRef, snd (pop this), log)
            | Some ref => clear (snd (pop this)) (log ++ [ref]) } } }.
Proof. eapply pop_shorter; eauto. Qed.

End DetachedStateCache.

(** ** The route reuse strategy *)

Definition KeysDontMatch (expected actual : string) : Error :=
  ErrorMsg ("Trying to pop from DetachedStateCache but keys don't match. "
            +:+ "expected: " +:+ expected +:+ " actual: " +:+ actual).

Module NSRouteReuseStrategy.

(** What the methods of the strategy read and write: the field
    [cacheByOutlet] of the strategy itself, the outlets and the snapshot
    marks they reach through their arguments, and the component refs
    handed to [destroyComponentRef]. *)
Record State : Type :=
  { cacheByOutlet : gmap string DetachedStateCache.t;
    outlets : OutletStore;
    marks : Marks;
    destroyed : list ComponentRef }.

Definition setCacheByOutlet (m : gmap string DetachedStateCache.t)
  (s : State) : State :=
  {| cacheByOutlet := m; outlets := outlets s; marks := marks s;
     destroyed := destroyed s |}.

Definition setOutlets (o : OutletStore) (s : State) : State :=
  {| cacheByOutlet := cacheByOutlet s; outlets := o; marks := marks s;
     destroyed := destroyed s |}.

Definition setMarks (m : Marks) (s : State) : State :=
  {| cacheByOutlet := cacheByOutlet s; outlets := outlets s; marks := m;
     destroyed := destroyed s |}.

Definition setDestroyed (d : list ComponentRef) (s : State) : State :=
  {| cacheByOutlet := cacheByOutlet s; outlets := outlets s;
     marks := marks s; destroyed := d |}.

Section Strategy.

(** [findTopActivatedRouteNodeForOutlet] of [page-router-outlet-utils]
    and the injected location strategy are not among the sources. *)
Variable findTopActivatedRouteNodeForOutlet : Snapshot -> Snapshot.
Variable location : NSLocationStrategy.

(** First loop of [findValidOutletAndKey]: walk up until [findOutlet]
    answers; the result is the outlet and the route it was found at. *)
Fixpoint findOutletUp (route : Snapshot) : option (nat * Snapshot) :=
  match findOutlet location (getRouteFullPath location route) route with
  | Some outlet => Some (outlet, route)
  | None =>
      match ActivatedRouteSnapshot.parent route with
      | Some p => findOutletUp p
      | None => None
      end
  end.

(** Second loop: walk further up until the full path of the route is one
    of the outlet's keys; [routeOutletKey] is the answer at the root. *)
Fixpoint findKeyUp (keys : list string) (routeOutletKey : string)
  (route : Snapshot) : string :=
  let outletKey := getRouteFullPath location route in
  if includes keys outletKey then outletKey
  else
    match ActivatedRouteSnapshot.parent route with
    | Some p => findKeyUp keys routeOutletKey p
    | None => routeOutletKey
    end.

Definition findValidOutletAndKey (s : State) (targetRoute : Snapshot)
  : option nat * string :=
  let routeOutletKey := getRouteFullPath location targetRoute in
  match findOutletUp targetRoute with
  | None => (None, routeOutletKey)
  | Some (outlet, route) =>
      (Some outlet,
       findKeyUp (Outlet.outletKeys (outlets s outlet)) routeOutletKey route)
  end.

(** [outlet ? outlet.isPageNavigationBack : false] *)
Definition isBackOf (s : State) (outlet : option nat) : bool :=
  match outlet with
  | Some o => Outlet.isPageNavigationBack (outlets s o)
  | None => false
  end.

(** [while (!(isPageActivated = tmp[pageRouterActivatedSymbol]) && tmp.parent)] *)
Fixpoint isPageActivatedFrom (m : Marks) (tmp : Snapshot) : JSVal :=
  let isPageActivated := getMark m tmp in
  if truthy isPageActivated then isPageActivated
  else
    match ActivatedRouteSnapshot.parent tmp with
    | Some p => isPageActivatedFrom m p
    | None => isPageActivated
    end.

Definition outletVal (outlet : option nat) : JSVal :=
  match outlet with
  | Some o => JSRef o
  | None => JSNull
  end.

Definition shouldDetach (s : State) (route : Snapshot) : JSVal * State :=
  let route := findTopActivatedRouteNodeForOutlet route in
  let '(outlet, _) := findValidOutletAndKey s route in
  let isPageActivated := isPageActivatedFrom (marks s) route in
  let isBack := isBackOf s outlet in
  let shouldDetach :=
    js_and (js_and (outletVal outlet) (JSBool (negb isBack))) isPageActivated in
  match outlet with
  | Some o =>
      let shouldDetach :=
        match Outlet.parent (outlets s o) with
        | Some p =>
            if negb (truthy (Outlet.shouldDetach (outlets s p)))
            then JSBool false
            else shouldDetach
        | None => shouldDetach
        end in
      (shouldDetach,
       setOutlets (updateOutlet o (Outlet.setShouldDetach shouldDetach)
                                (outlets s)) s)
  | None => (shouldDetach, s)
  end.

Definition shouldAttach (s : State) (route : Snapshot) : bool * State :=
  let route := findTopActivatedRouteNodeForOutlet route in
  let '(outlet, outletKey) := findValidOutletAndKey s route in
  match cacheByOutlet s !! outletKey with
  | None => (false, s)
  | Some cache =>
      let key := getSnapshotKey route in
      let isBack := isBackOf s outlet in
      let shouldAttach :=
        isBack &&
        match fst (DetachedStateCache.peek cache) with
        | Some top => String.eqb (CacheItem.key top) key
        | None => false
        end in
      match outlet with
      | Some o =>
          (shouldAttach,
           setOutlets (updateOutlet o (Outlet.setShouldDetach (JSBool true))
                                    (outlets s)) s)
      | None => (shouldAttach, s)
      end
  end.

Definition store (s : State) (route : Snapshot)
  (state : option DetachedRouteHandle) : Completion unit * State :=
  let route := findTopActivatedRouteNodeForOutlet route in
  let key := getSnapshotKey route in
  let '(_, outletKey) := findValidOutletAndKey s route in
  let cache := default DetachedStateCache.new (cacheByOutlet s !! outletKey) in
  let s := setCacheByOutlet (<[outletKey := cache]> (cacheByOutlet s)) s in
  match state with
  | Some state =>
      let isModal := (0 <? _modalNavigationDepth location)%Z in
      let cache :=
        DetachedStateCache.push
          (CacheItem.Make key state isModal) cache in
      (Normal tt, setCacheByOutlet (<[outletKey := cache]> (cacheByOutlet s)) s)
  | None =>
      match fst (DetachedStateCache.peek cache) with
      | None => (Throw TypeError, s)
      | Some topItem =>
          if String.eqb (CacheItem.key topItem) key then
            let cache := snd (DetachedStateCache.pop cache) in
            let s :=
              setCacheByOutlet (<[outletKey := cache]> (cacheByOutlet s)) s in
            if Nat.eqb (DetachedStateCache.length cache) 0
            then (Normal tt,
                  setCacheByOutlet (delete outletKey (cacheByOutlet s)) s)
            else (Normal tt, s)
          else (Throw (KeysDontMatch (CacheItem.key topItem) key), s)
      end
  end.

Definition retrieve (s : State) (route : Snapshot)
  : option DetachedRouteHandle * State :=
  let route := findTopActivatedRouteNodeForOutlet route in
  let '(outlet, outletKey) := findValidOutletAndKey s route in
  match cacheByOutlet s !! outletKey with
  | None => (None, s)
  | Some cache =>
      let key := getSnapshotKey route in
      let isBack := isBackOf s outlet in
      let cachedItem := fst (DetachedStateCache.peek cache) in
      match cachedItem with
      | Some item =>
          if isBack && String.eqb (CacheItem.key item) key
          then (Some (CacheItem.state item), s)
          else (None, s)
      | None => (None, s)
      end
  end.

Definition shouldReuseRoute (s : State) (future curr : Snapshot)
  : bool * State :=
  let shouldReuse :=
    bool_decide (ActivatedRouteSnapshot.routeConfig future
                 = ActivatedRouteSnapshot.routeConfig curr) in
  if shouldReuse && truthy (getMark (marks s) curr)
  then (shouldReuse,
        setMarks (setMark future (getMark (marks s) curr) (marks s)) s)
  else (shouldReuse, s).

Definition clearModalCache (s : State) (outletKey : string)
  : Completion unit * State :=
  match cacheByOutlet s !! outletKey with
  | None => (Normal tt, s)
  | Some cache =>
      let '(r, cache, log) :=
        DetachedStateCache.clearModalCache cache (destroyed s) in
      (r, setDestroyed log
            (setCacheByOutlet (<[outletKey := cache]> (cacheByOutlet s)) s))
  end.

Definition clearCache (s : State) (outletKey : string)
  : Completion unit * State :=
  match cacheByOutlet s !! outletKey with
  | None => (Normal tt, s)
  | Some cache =>
      let '(r, cache, log) := DetachedStateCache.clear cache (destroyed s) in
      (r, setDestroyed log
            (setCacheByOutlet (<[outletKey := cache]> (cacheByOutlet s)) s))
  end.

(** [popCache] has no [throw]: every access is guarded. *)
Definition popCache (s : State) (outletKey : string) : State :=
  match cacheByOutlet s !! outletKey with
  | None => s
  | Some cache =>
      match fst (DetachedStateCache.peek cache) with
      | None => s
      | Some _ =>
          let '(popped, cache) := DetachedStateCache.pop cache in
          let s :=
            setCacheByOutlet (<[outletKey := cache]> (cacheByOutlet s)) s in
          match popped with
          | Some item =>
              match componentRef (CacheItem.state item) with
              | Some ref => setDestroyed (destroyed s ++ [ref]) s
              | None => s
              end
          | None => s
          end
      end
  end.

End Strategy.

End NSRouteReuseStrategy.

(** ** The page router outlet *)

(** The router's tree of outlet contexts.  [getContext] is the lookup of
    the underlying [Map]; the [outlet] of a context records only whether
    it is an instance of [PageRouterOutlet]. *)
Inductive OutletClass : Type :=
| PageRouterOutletClass
| OtherOutletClass.

Inductive ChildrenOutletContexts : Type :=
| Contexts (getContext : string -> option OutletContext)
with OutletContext : Type :=
| Context (outlet : option OutletClass)
          (children : option ChildrenOutletContexts).

Definition getContext (contexts : ChildrenOutletContexts) (name : string)
  : option OutletContext :=
  match contexts with
  | Contexts get => get name
  end.

(** A snapshot together with its [children] in the router state tree. *)
#[local] Unset Elimination Schemes.
Inductive SnapshotTree : Type :=
| SnapshotNode (route : Snapshot) (children : list SnapshotTree).
#[local] Set Elimination Schemes.

Fixpoint treeSize (tree : SnapshotTree) : nat :=
  match tree with
  | SnapshotNode _ children => S (list_sum (map treeSize children))
  end.

Definition forestSize (queue : list SnapshotTree) : nat :=
  list_sum (map treeSize queue).

Lemma forestSize_app (q1 q2 : list SnapshotTree) :
  forestSize (q1 ++ q2) = forestSize q1 + forestSize q2.
Proof.
  unfold forestSize. induction q1 as [|x q1 IH]; simpl; [reflexivity|].
  rewrite IH. lia.
Qed.

Record ActivatedRoute : Type :=
  { routeId : nat;
    snapshot : SnapshotTree }.

Inductive Emitter : Type :=
| attachEvents
| detachEvents.

(** What the outlet does to its collaborators, in order. *)
Inductive Effect : Type :=
| HostViewDetach (ref : ComponentRef)
| HostViewMarkForCheck (ref : ComponentRef)
| HostViewReattach (ref : ComponentRef)
| Emit (emitter : Emitter) (instanceOf : ComponentRef)
| FinishBackPageNavigation (frame : nat).

Module PageRouterOutlet.

Record t : Type :=
  Make { activated : option ComponentRef;
         _activatedRoute : option ActivatedRoute;
         name : string;
         parentContexts : ChildrenOutletContexts;
         frame : nat }.

Record World : Type :=
  { marks : Marks;
    outlets : OutletStore;
    trace : list Effect }.

Definition emit (e : Effect) (w : World) : World :=
  {| marks := marks w; outlets := outlets w; trace := trace w ++ [e] |}.

Definition setMarks (m : Marks) (w : World) : World :=
  {| marks := m; outlets := outlets w; trace := trace w |}.

Definition isActivated (this : t) : bool :=
  match activated this with
  | Some _ => true
  | None => false
  end.

Definition detach (this : t) (w : World) : option ComponentRef * t * World :=
  match activated this with
  | None => (None, this, w)
  | Some component =>
      let w := emit (HostViewDetach component) w in
      let this :=
        {| activated := None;
           _activatedRoute := None;
           name := name this;
           parentContexts := parentContexts this;
           frame := frame this |} in
      let w := emit (Emit detachEvents component) w in
      (Some component, this, w)
  end.

(** The [while (children)] loop of [isFinalPageRouterOutlet]. *)
Fixpoint isFinalFrom (name : string) (children : ChildrenOutletContexts)
  : bool :=
  match children with
  | Contexts get =>
      match get name with
      | None => true
      | Some (Context None _) => true
      | Some (Context (Some PageRouterOutletClass) _) => false
      | Some (Context (Some OtherOutletClass) None) => true
      | Some (Context (Some OtherOutletClass) (Some children)) =>
          isFinalFrom name children
      end
  end.

Definition isFinalPageRouterOutlet (this : t) : bool :=
  match getContext (parentContexts this) (name this) with
  | Some (Context _ (Some children)) => isFinalFrom (name this) children
  | Some (Context _ None) | None => true
  end.

Section Outlet.

Variable findTopActivatedRouteNodeForOutlet : Snapshot -> Snapshot.
Variable locationStrategy : NSLocationStrategy.

(** The body of the loop of [markActivatedRoute] for one route. *)
Definition markOne (outlets : OutletStore) (currentRoute : Snapshot)
  (m : Marks) : Marks :=
  let topActivatedRoute := findTopActivatedRouteNodeForOutlet currentRoute in
  let outletKey := getRouteFullPath locationStrategy topActivatedRoute in
  match findOutlet locationStrategy outletKey topActivatedRoute with
  | Some outlet =>
      match Outlet.frames (outlets outlet) with
      | [] => m
      | _ :: _ => setMark topActivatedRoute (JSBool true) m
      end
  | None => m
  end.

(** The queue of [markActivatedRoute], the route being visited first. *)
Equations? markLoop (outlets : OutletStore) (queue : list SnapshotTree)
  (m : Marks) : Marks by wf (forestSize queue) lt :=
  markLoop outlets [] m := m;
  markLoop outlets (SnapshotNode currentRoute children :: queue) m :=
    markLoop outlets (queue ++ children) (markOne outlets currentRoute m).
Proof.
  rewrite forestSize_app. unfold forestSize; simpl.
  fold (forestSize queue). fold (forestSize children). lia.
Qed.

Definition markActivatedRoute (activatedRoute : ActivatedRoute) (w : World)
  : World :=
  setMarks (markLoop (outlets w) [snapshot activatedRoute] (marks w)) w.

Definition attach (ref : ComponentRef) (activatedRoute : ActivatedRoute)
  (this : t) (w : World) : t * World :=
  let this :=
    {| activated := Some ref;
       _activatedRoute := _activatedRoute this;
       name := name this;
       parentContexts := parentContexts this;
       frame := frame this |} in
  let w := emit (HostViewMarkForCheck ref) w in
  let w := emit (HostViewReattach ref) w in
  let this :=
    {| activated := activated this;
       _activatedRoute := Some activatedRoute;
       name := name this;
       parentContexts := parentContexts this;
       frame := frame this |} in
  let w := markActivatedRoute activatedRoute w in
  let w :=
    if isFinalPageRouterOutlet this
    then emit (FinishBackPageNavigation (frame this)) w
    else w in
  let w := emit (Emit attachEvents ref) w in
  (this, w).

End Outlet.

End PageRouterOutlet.

(** ** The action bar *)

(** The class of a node of the view tree, as the [instanceof] tests of
    the action-bar code tell them apart.  A [NavigationButton] is also an
    [ActionItem]; an [InvisibleNode] is also a [View]. *)
Inductive ViewClass : Type :=
| InvisibleNodeClass
| NavigationButtonClass
| ActionItemClass
| ViewClassOther
| NotAView.

#[global] Instance ViewClass_eq_dec : EqDecision ViewClass.
Proof. solve_decision. Defined.

(** A view object: its identity and its class. *)
Record NgView : Type :=
  { viewId : nat;
    viewClass : ViewClass }.

#[global] Instance NgView_eq_dec : EqDecision NgView.
Proof. solve_decision. Defined.

Definition isInvisibleNode (view : NgView) : bool :=
  bool_decide (viewClass view = InvisibleNodeClass).

Definition isNavigationButton (view : NgView) : bool :=
  bool_decide (viewClass view = NavigationButtonClass).

Definition isActionItem (view : NgView) : bool :=
  bool_decide (viewClass view = ActionItemClass)
  || bool_decide (viewClass view = NavigationButtonClass).

Definition isView (view : NgView) : bool :=
  bool_decide (viewClass view = ViewClassOther)
  || bool_decide (viewClass view = InvisibleNodeClass).

(** [Array.prototype.indexOf]: the first index holding [x], or [-1]. *)
Fixpoint indexOf (xs : list NgView) (x : NgView) : Z :=
  match xs with
  | [] => -1
  | y :: ys =>
      if bool_decide (y = x) then 0
      else
        let i := indexOf ys x in
        if (i <? 0)%Z then -1 else (i + 1)%Z
  end.

(** [xs.splice(start, 0, item)]: a negative [start] counts from the end,
    and the position is clamped to the array. *)
Definition spliceInsert (xs : list NgView) (start : Z) (item : NgView)
  : list NgView :=
  let len := Z.of_nat (List.length xs) in
  let actualStart :=
    if (start <? 0)%Z then Z.max (len + start) 0 else Z.min start len in
  take (Z.to_nat actualStart) xs ++ item :: drop (Z.to_nat actualStart) xs.

(** What the toolkit's [_addView] throws for a view that already has a
    parent (the message goes on with the view and its parent). *)
Definition ViewAlreadyHasParent : Error :=
  ErrorMsg "View already has a parent".

(** The collection [ActionItems] of the UI toolkit (a library class, not
    part of this repository), which keeps its items in an array.
    [addItem] pushes the item and then hands it to [_addView] of the
    action bar, which throws for a view that already has a parent; of the
    views of this model the ones with a parent are the items of the
    collection.  [removeItem] removes the first occurrence, frees the
    view, and throws when there is none.  [getItems] copies the array.
    [setItems] removes every item, one [removeItem] each, and then adds
    the new ones, one [addItem] each. *)
Module ActionItems.

Definition t : Type := list NgView.

Definition addItem (item : NgView) (this : t) : Completion unit * t :=
  if bool_decide (item ∈ (this : list NgView))
  then (Throw ViewAlreadyHasParent, this ++ [item])
  else (Normal tt, this ++ [item]).

Definition getItems (this : t) : list NgView := this.

(** The loop [for (i ...) this.addItem(items[i])] of [setItems]. *)
Fixpoint addItems (items : list NgView) (this : t) : Completion unit * t :=
  match items with
  | [] => (Normal tt, this)
  | item :: items =>
      match addItem item this with
      | (Normal _, this) => addItems items this
      | (Throw e, this) => (Throw e, this)
      end
  end.

Definition setItems (items : list NgView) (this : t) : Completion unit * t :=
  addItems items [].

Definition removeItem (item : NgView) (this : t) : Completion unit * t :=
  let itemIndex := indexOf this item in
  if (itemIndex <? 0)%Z
  then (Throw (ErrorMsg "Cannot find item to remove"), this)
  else (Normal tt,
        take (Z.to_nat itemIndex) this ++ drop (S (Z.to_nat itemIndex)) this).

End ActionItems.

Record NgActionBar : Type :=
  { barId : nat;
    navigationButton : option NgView;
    actionItems : ActionItems.t;
    titleView : option NgView }.

(** The action bar the operations work on, and the [parentNode] property
    of the views ([null] is an absent key). *)
Record ActionBarState : Type :=
  { bar : NgActionBar;
    parentNode : gmap nat nat }.

Definition setNavigationButton (v : option NgView) (b : NgActionBar)
  : NgActionBar :=
  {| barId := barId b; navigationButton := v;
     actionItems := actionItems b; titleView := titleView b |}.

Definition setActionItems (items : ActionItems.t) (b : NgActionBar)
  : NgActionBar :=
  {| barId := barId b; navigationButton := navigationButton b;
     actionItems := items; titleView := titleView b |}.

Definition setTitleView (v : option NgView) (b : NgActionBar) : NgActionBar :=
  {| barId := barId b; navigationButton := navigationButton b;
     actionItems := actionItems b; titleView := v |}.

Definition insertActionItemBefore (bar : NgActionBar) (item next : NgView)
  : Completion unit * NgActionBar :=
  let actionItemsCollection := ActionItems.getItems (actionItems bar) in
  let indexToInsert := indexOf actionItemsCollection next in
  let actionItemsCollection :=
    spliceInsert actionItemsCollection indexToInsert item in
  let '(r, items) :=
    ActionItems.setItems actionItemsCollection (actionItems bar) in
  (r, setActionItems items bar).

Definition appendActionItem (bar : NgActionBar) (item : NgView)
  : Completion unit * NgActionBar :=
  let '(r, items) := ActionItems.addItem item (actionItems bar) in
  (r, setActionItems items bar).

Definition addActionItem (bar : NgActionBar) (item : NgView)
  (next : option NgView) : Completion unit * NgActionBar :=
  match next with
  | Some next => insertActionItemBefore bar item next
  | None => appendActionItem bar item
  end.

Module actionBarMeta.

Definition insertChild (s : ActionBarState) (child : NgView)
  (next : option NgView) : Completion unit * ActionBarState :=
  let parent := bar s in
  if isInvisibleNode child then (Normal tt, s)
  else if isNavigationButton child then
    (Normal tt,
     {| bar := setNavigationButton (Some child) parent;
        parentNode := <[viewId child := barId parent]> (parentNode s) |})
  else if isActionItem child then
    match addActionItem parent child next with
    | (Throw e, parent') =>
        (Throw e, {| bar := parent'; parentNode := parentNode s |})
    | (Normal _, parent') =>
        (Normal tt,
         {| bar := parent';
            parentNode := <[viewId child := barId parent]> (parentNode s) |})
    end
  else if isView child then
    (Normal tt,
     {| bar := setTitleView (Some child) parent;
        parentNode := parentNode s |})
  else (Normal tt, s).

Definition removeChild (s : ActionBarState) (child : NgView)
  : Completion unit * ActionBarState :=
  let parent := bar s in
  if isInvisibleNode child then (Normal tt, s)
  else if isNavigationButton child then
    let parent :=
      if bool_decide (navigationButton parent = Some child)
      then setNavigationButton None parent
      else parent in
    (Normal tt,
     {| bar := parent; parentNode := delete (viewId child) (parentNode s) |})
  else if isActionItem child then
    match ActionItems.removeItem child (actionItems parent) with
    | (Throw e, _) => (Throw e, s)
    | (Normal _, items) =>
        (Normal tt,
         {| bar := setActionItems items parent;
            parentNode := delete (viewId child) (parentNode s) |})
    end
  else if isView child
          && bool_decide (titleView parent = Some child) then
    (Normal tt,
     {| bar := setTitleView None parent; parentNode := parentNode s |})
  else (Normal tt, s).

End actionBarMeta.

(** ** The scope of an action-bar extension *)

(** [ActionBarScope]: the two methods that manage the navigation button
    of [this.page.actionBar]; [nav] is [navBtn.element.nativeElement],
    which may be [null]. *)
Module ActionBarScope.

Definition onNavButtonInit (actionBar : NgActionBar) (nav : option NgView)
  : NgActionBar :=
  setNavigationButton nav actionBar.

Definition onNavButtonDestroy (actionBar : NgActionBar) (nav : option NgView)
  : NgActionBar :=
  match nav with
  | Some n =>
      if bool_decide (navigationButton actionBar = Some n)
      then setNavigationButton None actionBar
      else actionBar
  | None => actionBar
  end.

End ActionBarScope.

(** ** The destructible injector *)

(** [DestructibleInjector]: [refs] is the [Set] of tracked values in
    insertion order, a value being an object reference or [None] for
    [null] and [undefined]; [parent] is the [get] of the parent
    injector.  [hasNgOnDestroy ref] tells whether [ref.ngOnDestroy] is a
    function, and [calls] lists the refs whose [ngOnDestroy] was called. *)
Module DestructibleInjector.

Record t : Type :=
  Make { refs : list (option nat);
         destructableProviders : gset nat;
         parent : nat -> option nat -> option nat -> option nat }.

(** [Set.prototype.add] *)
Definition setAdd (ref : option nat) (set : list (option nat))
  : list (option nat) :=
  if bool_decide (ref ∈ set) then set else set ++ [ref].

Definition get (token : nat) (notFoundValue flags : option nat) (this : t)
  : option nat * t :=
  let ref := parent this token notFoundValue flags in
  if bool_decide (token ∈ destructableProviders this)
  then (ref, {| refs := setAdd ref (refs this);
                destructableProviders := destructableProviders this;
                parent := parent this |})
  else (ref, this).

(** The [forEach] of [destroy]; reading [ngOnDestroy] off [null] throws. *)
Fixpoint destroyEach (hasNgOnDestroy : nat -> bool)
  (set : list (option nat)) (calls : list nat)
  : Completion unit * list nat :=
  match set with
  | [] => (Normal tt, calls)
  | None :: _ => (Throw TypeError, calls)
  | Some ref :: set =>
      destroyEach hasNgOnDestroy set
        (if hasNgOnDestroy ref then calls ++ [ref] else calls)
  end.

Definition destroy (hasNgOnDestroy : nat -> bool) (this : t)
  (calls : list nat) : Completion unit * t * list nat :=
  match destroyEach hasNgOnDestroy (refs this) calls with
  | (Normal _, calls) =>
      (Normal tt,
       {| refs := [];
          destructableProviders := destructableProviders this;
          parent := parent this |},
       calls)
  | (Throw e, calls) => (Throw e, this, calls)
  end.

End DestructibleInjector.

(** ** Predicates and views used in the statements *)

(** No cache registered in [cacheByOutlet] is empty. *)
Definition cachesNonEmpty (s : NSRouteReuseStrategy.State) : Prop :=
  map_Forall (fun _ cache => DetachedStateCache.length cache <> 0)
             (NSRouteReuseStrategy.cacheByOutlet s).

(** Every marker that is set is [true]: [markActivatedRoute] writes
    nothing else and [shouldReuseRoute] only copies. *)
Definition marksAreTrue (m : Marks) : Prop :=
  map_Forall (fun _ v => v = JSBool true) m.

(** The snapshots of a tree, and of a queue of trees. *)
Fixpoint treeRoutes (tree : SnapshotTree) : list Snapshot :=
  match tree with
  | SnapshotNode route children => route :: concat (map treeRoutes children)
  end.

Definition forestRoutes (queue : list SnapshotTree) : list Snapshot :=
  concat (map treeRoutes queue).

(** The test [outlet && outlet.frames.length] of [markActivatedRoute]
    for the top activated route of [currentRoute]. *)
Definition hasOutletWithFrames (findTop : Snapshot -> Snapshot)
  (locationStrategy : NSLocationStrategy) (outlets : OutletStore)
  (currentRoute : Snapshot) : bool :=
  match findOutlet locationStrategy
          (getRouteFullPath locationStrategy (findTop currentRoute))
          (findTop currentRoute) with
  | Some outlet =>
      match Outlet.frames (outlets outlet) with
      | [] => false
      | _ :: _ => true
      end
  | None => false
  end.

(** The collection an action item lands in when [insertChild] is given
    that item and [next]. *)
Definition itemsAfterInsert (items : list NgView) (child : NgView)
  (next : option NgView) : list NgView :=
  match next with
  | Some n => spliceInsert items (indexOf items n) child
  | None => items ++ [child]
  end.

(** A run of [get] calls on an injector, one request after the other. *)
Definition getAll (requests : list (nat * option nat * option nat))
  (this : DestructibleInjector.t) : DestructibleInjector.t :=
  foldl (fun acc '(token, notFoundValue, flags) =>
           snd (DestructibleInjector.get token notFoundValue flags acc))
        this requests.

(** ** Sample objects

    A location strategy with one outlet, [0], known under the key
    ["home"], and a two-level route; used by the worked instances. *)

Module Sample.

Definition location (depth : Z) : NSLocationStrategy :=
  {| getRouteFullPath := fun _ => "home";
     findOutlet := fun _ _ => Some 0;
     _modalNavigationDepth := depth |}.

Definition outlet (isBack : bool) (flag : JSVal) : Outlet.t :=
  Outlet.Make isBack flag ["home"] None [7].

Definition root : Snapshot :=
  ActivatedRouteSnapshot.Make 1 "Route(url:'', path:'')" None None.

Definition home : Snapshot :=
  ActivatedRouteSnapshot.Make 2 "Route(url:'home', path:'home')" (Some 5)
                              (Some root).

Definition detail : Snapshot :=
  ActivatedRouteSnapshot.Make 3 "Route(url:'detail', path:'detail')" (Some 5)
                              (Some root).

Definition handle (ref : ComponentRef) : DetachedRouteHandle :=
  {| handleId := ref; componentRef := Some ref |}.

Definition homeItem : CacheItem :=
  CacheItem.Make (getSnapshotKey home) (handle 11) false.

Definition state (isBack : bool) (flag : JSVal)
  (caches : gmap string DetachedStateCache.t) (m : Marks)
  : NSRouteReuseStrategy.State :=
  {| NSRouteReuseStrategy.cacheByOutlet := caches;
     NSRouteReuseStrategy.outlets := fun _ => outlet isBack flag;
     NSRouteReuseStrategy.marks := m;
     NSRouteReuseStrategy.destroyed := [] |}.

End Sample.

(** * Properties *)

(** ** [DetachedStateCache] *)

Section CacheFacts.

Import DetachedStateCache.

Lemma peek_last (this : t) : fst (peek this) = last (cache this).
Proof.
  destruct this as [c]; unfold peek; simpl.
  destruct c as [|x c] using rev_ind; [reflexivity|].
  rewrite length_app, last_snoc; simpl.
  replace (List.length c + 1) with (S (List.length c)) by lia.
  rewrite lookup_app_r by lia.
  now rewrite Nat.sub_diag.
Qed.

Lemma peek_push (cacheItem : CacheItem) (this : t) :
  fst (peek (push cacheItem this)) = Some cacheItem.
Proof. rewrite peek_last; unfold push; simpl. apply last_snoc. Qed.

Lemma pop_push (cacheItem : CacheItem) (this : t) :
  pop (push cacheItem this) = (Some cacheItem, this).
Proof.
  destruct this as [c]; unfold pop, push; simpl.
  now rewrite last_snoc, removelast_last.
Qed.

(** One turn of the loop on a cache whose top item is [x]. *)
Lemma clearModalLoop_snoc (c : list CacheItem) (x : CacheItem)
  (log : list ComponentRef) :
  clearModalLoop (Make (c ++ [x])) log =
  match componentRef (CacheItem.state x) with
  | None => (Throw NoComponentRef, Make (c ++ [x]), log)
  | Some ref =>
      if CacheItem.isModal x then (Normal tt, Make c, log ++ [ref])
      else clearModalLoop (Make c) (log ++ [ref])
  end.
Proof.
  rewrite clearModalLoop_equation_1.
  assert (Hp : fst (peek (Make (c ++ [x]))) = Some x)
    by exact (peek_push x (Make c)).
  destruct (inspect (fst (peek (Make (c ++ [x]))))) as [[i|] Hi];
    [|congruence].
  assert (i = x) by congruence; subst i; simpl.
  destruct (componentRef (CacheItem.state x)); simpl; [|reflexivity].
  destruct (CacheItem.isModal x); simpl; now rewrite removelast_last.
Qed.

(** The loop runs down through the non-modal items [above], all of which
    carry a component ref, and reaches the item under them. *)
Lemma clearModalLoop_above (c above : list CacheItem)
  (refs log : list ComponentRef) :
  Forall (fun i => CacheItem.isModal i = false) above ->
  map (fun i => componentRef (CacheItem.state i)) above = map Some refs ->
  clearModalLoop (Make (c ++ above)) log =
  clearModalLoop (Make c) (log ++ rev refs).
Proof.
  revert refs log.
  induction above as [|x above IH] using rev_ind; intros refs log Hnm Hrefs.
  - destruct refs; [|discriminate]. simpl. now rewrite !app_nil_r.
  - apply Forall_app in Hnm as [Hnm Hx]. inversion_clear Hx as [|? ? Hxm _].
    destruct refs as [|r refs] using rev_ind.
    { rewrite map_app in Hrefs. simpl in Hrefs.
      symmetry in Hrefs. now apply app_cons_not_nil in Hrefs. }
    clear IHrefs. rewrite !map_app in Hrefs. simpl in Hrefs.
    apply app_inj_tail in Hrefs as [Hrefs Hr].
    rewrite app_assoc, clearModalLoop_snoc, Hr, Hxm.
    rewrite (IH refs) by assumption.
    now rewrite rev_app_distr, <- app_assoc.
Qed.

End CacheFacts.

(** C6. [DetachedStateCache] is a LIFO stack: [push] adds one to [length]
    and makes [peek] answer the pushed item; [pop] after [push] returns
    that item and gives back the cache as it was before the [push]; and
    [peek] leaves the cache as it is. *)
Theorem DetachedStateCache_lifo
  (this : DetachedStateCache.t) (item : CacheItem) :
  DetachedStateCache.length (DetachedStateCache.push item this)
  = DetachedStateCache.length this + 1
  /\ fst (DetachedStateCache.peek (DetachedStateCache.push item this))
     = Some item
  /\ DetachedStateCache.pop (DetachedStateCache.push item this)
     = (Some item, this)
  /\ snd (DetachedStateCache.peek this) = this.
Proof.
  repeat split.
  - unfold DetachedStateCache.length, DetachedStateCache.push; simpl.
    apply length_app.
  - apply peek_push.
  - apply pop_push.
Qed.

(** C8 as stated fails: a cache whose only item is modal and whose handle
    has no component ref is not popped; [clearModalCache] throws and the
    item stays. *)
Lemma clearModalCache_keeps_item_without_componentRef :
  let item :=
    CacheItem.Make "home" {| handleId := 0; componentRef := None |} true in
  let this := DetachedStateCache.Make [item] in
  existsb CacheItem.isModal (DetachedStateCache.cache this) = true
  /\ DetachedStateCache.clearModalCache this []
     = (Throw NoComponentRef, this, [])
  /\ snd (fst (DetachedStateCache.clearModalCache this []))
     <> DetachedStateCache.Make [].
Proof. repeat split. discriminate. Qed.

(** C8, amended. Without a modal item [clearModalCache] changes nothing.
    With one, let [m] be the topmost modal item and [above] the items on
    top of it: when all of them carry a component ref, exactly [m] and
    [above] are popped and their component refs destroyed, top first, and
    the items [below] stay; when an item [x] at or above [m] carries none
    (and those on top of it do), the call throws with [x] still on top,
    having popped and destroyed only the items on top of [x]. *)
Theorem clearModalCache_spec
  (this : DetachedStateCache.t) (log : list ComponentRef) :
  (existsb CacheItem.isModal (DetachedStateCache.cache this) = false ->
   DetachedStateCache.clearModalCache this log = (Normal tt, this, log))
  /\ (forall below m above refs,
        DetachedStateCache.cache this = below ++ m :: above ->
        CacheItem.isModal m = true ->
        Forall (fun i => CacheItem.isModal i = false) above ->
        map (fun i => componentRef (CacheItem.state i)) (m :: above)
        = map Some refs ->
        DetachedStateCache.clearModalCache this log
        = (Normal tt, DetachedStateCache.Make below, log ++ rev refs))
  /\ (forall below x above refs,
        DetachedStateCache.cache this = below ++ x :: above ->
        existsb CacheItem.isModal (below ++ [x]) = true ->
        Forall (fun i => CacheItem.isModal i = false) above ->
        componentRef (CacheItem.state x) = None ->
        map (fun i => componentRef (CacheItem.state i)) above
        = map Some refs ->
        DetachedStateCache.clearModalCache this log
        = (Throw NoComponentRef, DetachedStateCache.Make (below ++ [x]),
           log ++ rev refs)).
Proof.
  destruct this as [c]; unfold DetachedStateCache.clearModalCache; simpl.
  split; [|split].
  - now intros ->.
  - intros below m above refs -> Hm Hnm Hrefs.
    rewrite existsb_app; simpl. rewrite Hm, orb_true_r.
    destruct refs as [|r refs]; [discriminate|].
    simpl in Hrefs. injection Hrefs as Hr Hrefs.
    change (below ++ m :: above) with (below ++ [m] ++ above).
    rewrite app_assoc, (clearModalLoop_above _ above refs) by assumption.
    rewrite clearModalLoop_snoc, Hr, Hm; simpl.
    now rewrite <- app_assoc.
  - intros below x above refs -> Hex Hnm Hx Hrefs.
    change (below ++ x :: above) with (below ++ [x] ++ above).
    rewrite app_assoc, existsb_app, Hex; simpl.
    rewrite (clearModalLoop_above _ above refs) by assumption.
    now rewrite clearModalLoop_snoc, Hx.
Qed.

Lemma clearModalCache_spec_witness :
  let h := fun r => {| handleId := r; componentRef := Some r |} in
  let a := CacheItem.Make "a" (h 1) false in
  let m := CacheItem.Make "m" (h 2) true in
  let b := CacheItem.Make "b" (h 3) false in
  DetachedStateCache.clearModalCache (DetachedStateCache.Make [a; m; b]) [7]
  = (Normal tt, DetachedStateCache.Make [a], [7; 3; 2]).
Proof.
  intros h a m b.
  apply (proj1 (proj2 (clearModalCache_spec
                         (DetachedStateCache.Make [a; m; b]) [7]))
           [a] m [b] [2; 3]).
  - reflexivity.
  - reflexivity.
  - repeat constructor.
  - reflexivity.
Defined.

(** ** [NSRouteReuseStrategy] *)

Section StrategyFacts.

Import NSRouteReuseStrategy.

#[local] Arguments DetachedStateCache.peek : simpl never.
#[local] Arguments DetachedStateCache.pop : simpl never.
#[local] Arguments DetachedStateCache.push : simpl never.

Variable findTop : Snapshot -> Snapshot.
Variable location : NSLocationStrategy.

(** The marker the loop of [shouldDetach] ends on is truthy only when it
    is the marker of the route it starts from or of one of its ancestors. *)
Lemma isPageActivatedFrom_truthy (m : Marks) (route : Snapshot) :
  truthy (isPageActivatedFrom m route) = true ->
  exists a, a ∈ ActivatedRouteSnapshot.pathFromRoot route
            /\ getMark m a = isPageActivatedFrom m route.
Proof.
  induction route as [r Hr | r p Hr IH] using ActivatedRouteSnapshot.parent_ind;
    destruct r as [i str cfg par]; simpl in Hr; subst par; simpl.
  - intros _. exists (ActivatedRouteSnapshot.Make i str cfg None).
    split; [apply list_elem_of_singleton; reflexivity|].
    now destruct (truthy _).
  - destruct (truthy (getMark m _)) eqn:Hm.
    + intros _. exists (ActivatedRouteSnapshot.Make i str cfg (Some p)).
      split; [|reflexivity].
      apply elem_of_app; right. now apply list_elem_of_singleton.
    + intros Ht. destruct (IH Ht) as (a & Ha & Hma).
      exists a. split; [|assumption]. apply elem_of_app; now left.
Qed.

Lemma updateOutlet_same (o : nat) (f : Outlet.t -> Outlet.t)
  (st : OutletStore) : updateOutlet o f st o = f (st o).
Proof. unfold updateOutlet. now rewrite Nat.eqb_refl. Qed.

Lemma setCacheByOutlet_id (s : State) (k : string)
  (cache : DetachedStateCache.t) :
  cacheByOutlet s !! k = Some cache ->
  setCacheByOutlet (<[k := cache]> (cacheByOutlet s)) s = s.
Proof.
  intros H. destruct s; unfold setCacheByOutlet; simpl in *.
  now rewrite insert_id.
Qed.

(** C1. [retrieve] never changes the state.  It returns the handle of the
    top item of the cache of the resolved outlet key when that cache
    exists, the resolved outlet performs a page back navigation and the
    key of the top item is the snapshot key of the route; and it returns
    [null] when there is no such cache, when the navigation is not a back
    navigation, and when no top item has the key of the route. *)
Theorem retrieve_spec (s : State) (route : Snapshot) :
  let top := findTop route in
  let outlet := fst (findValidOutletAndKey location s top) in
  let outletKey := snd (findValidOutletAndKey location s top) in
  snd (retrieve findTop location s route) = s
  /\ (forall cache item,
        cacheByOutlet s !! outletKey = Some cache ->
        isBackOf s outlet = true ->
        fst (DetachedStateCache.peek cache) = Some item ->
        CacheItem.key item = getSnapshotKey top ->
        fst (retrieve findTop location s route)
        = Some (CacheItem.state item))
  /\ (cacheByOutlet s !! outletKey = None ->
      fst (retrieve findTop location s route) = None)
  /\ (isBackOf s outlet = false ->
      fst (retrieve findTop location s route) = None)
  /\ (forall cache,
        cacheByOutlet s !! outletKey = Some cache ->
        (forall item, fst (DetachedStateCache.peek cache) = Some item ->
                      CacheItem.key item <> getSnapshotKey top) ->
        fst (retrieve findTop location s route) = None).
Proof.
  intros top outlet outletKey; subst top outlet outletKey.
  unfold retrieve.
  destruct (findValidOutletAndKey location s (findTop route))
    as [outlet outletKey]; cbn.
  destruct (cacheByOutlet s !! outletKey) as [cache|] eqn:Hc.
  - destruct (fst (DetachedStateCache.peek cache)) as [item|] eqn:Hp.
    + destruct (isBackOf s outlet) eqn:Hb; cbn;
        destruct (String.eqb_spec (CacheItem.key item)
                    (getSnapshotKey (findTop route))) as [Hk|Hk];
        repeat split; intros; simplify_eq; try done.
      match goal with
      | Hne : forall i, _ -> CacheItem.key i <> _ |- _ => now destruct (Hne item)
      end.
    + repeat split; intros; simplify_eq; done.
  - repeat split; intros; simplify_eq; done.
Qed.

(** C2. When [shouldDetach] returns [true], a valid outlet was found for
    the route, that outlet is not in a page back navigation, the route or
    one of its ancestors carries the page-router-activated marker, and
    the parent of the outlet, if it has one, has a truthy [shouldDetach]
    flag.  Whenever a valid outlet is found, its [shouldDetach] flag holds
    the returned value afterwards. *)
Theorem shouldDetach_spec (s : State) (route : Snapshot) :
  let top := findTop route in
  let outlet := fst (findValidOutletAndKey location s top) in
  (fst (shouldDetach findTop location s route) = JSBool true ->
   exists o,
     outlet = Some o
     /\ Outlet.isPageNavigationBack (outlets s o) = false
     /\ (exists a, a ∈ ActivatedRouteSnapshot.pathFromRoot top
                   /\ getMark (marks s) a = JSBool true)
     /\ (forall p, Outlet.parent (outlets s o) = Some p ->
                   truthy (Outlet.shouldDetach (outlets s p)) = true))
  /\ (forall o,
        outlet = Some o ->
        Outlet.shouldDetach
          (outlets (snd (shouldDetach findTop location s route)) o)
        = fst (shouldDetach findTop location s route)).
Proof.
  intros top outlet; subst top outlet.
  unfold shouldDetach.
  destruct (findValidOutletAndKey location s (findTop route))
    as [[o|] outletKey]; simpl.
  - split.
    + intros Hres. exists o. split; [reflexivity|].
      assert (Hcore : Outlet.isPageNavigationBack (outlets s o) = false
                /\ isPageActivatedFrom (marks s) (findTop route) = JSBool true
                /\ forall p, Outlet.parent (outlets s o) = Some p ->
                     truthy (Outlet.shouldDetach (outlets s p)) = true).
      { unfold js_and in Hres; simpl in Hres.
        destruct (Outlet.parent (outlets s o)) as [p|].
        - destruct (truthy (Outlet.shouldDetach (outlets s p))) eqn:Hp;
            simpl in Hres; [|discriminate].
          destruct (Outlet.isPageNavigationBack (outlets s o));
            simpl in Hres; [discriminate|].
          repeat split; [assumption|]. now intros p' [= <-].
        - destruct (Outlet.isPageNavigationBack (outlets s o));
            simpl in Hres; [discriminate|].
          repeat split; [assumption|discriminate]. }
      destruct Hcore as (Hb & Hact & Hpar).
      repeat split; [assumption| |assumption].
      destruct (isPageActivatedFrom_truthy (marks s) (findTop route))
        as (a & Ha & Hm); [now rewrite Hact|].
      exists a. split; [assumption|congruence].
    + intros o' [= <-]. now rewrite updateOutlet_same.
  - split; [|discriminate].
    unfold js_and; simpl. discriminate.
Qed.

(** C3 as stated fails: with no cache for the outlet key, [shouldAttach]
    returns before it touches the outlet, whose [shouldDetach] flag keeps
    its value although a valid outlet was found. *)
Lemma shouldAttach_without_cache_keeps_flag :
  let location :=
    {| getRouteFullPath := fun _ => "home";
       findOutlet := fun _ _ => Some 0;
       _modalNavigationDepth := 0 |} in
  let outlet :=
    Outlet.Make false (JSBool false) ["home"] None [] in
  let s :=
    {| cacheByOutlet := ∅; outlets := fun _ => outlet; marks := ∅;
       destroyed := [] |} in
  let route := ActivatedRouteSnapshot.Make 1 "Route(url:'home')" None None in
  fst (findValidOutletAndKey location s route) = Some 0
  /\ fst (shouldAttach (fun r => r) location s route) = false
  /\ Outlet.shouldDetach
       (outlets (snd (shouldAttach (fun r => r) location s route)) 0)
     = JSBool false.
Proof. repeat split. Qed.

(** C3, amended. [shouldAttach] returns [true] exactly when a cache
    exists for the resolved outlet key, the resolved outlet performs a
    page back navigation and the key of the top item is the snapshot key
    of the route.  With no cache it returns [false] and changes nothing.
    When a cache exists and a valid outlet is found, the [shouldDetach]
    flag of that outlet is [true] afterwards, whatever is returned. *)
Theorem shouldAttach_spec (s : State) (route : Snapshot) :
  let top := findTop route in
  let outlet := fst (findValidOutletAndKey location s top) in
  let outletKey := snd (findValidOutletAndKey location s top) in
  (fst (shouldAttach findTop location s route) = true <->
   exists cache item,
     cacheByOutlet s !! outletKey = Some cache
     /\ isBackOf s outlet = true
     /\ fst (DetachedStateCache.peek cache) = Some item
     /\ CacheItem.key item = getSnapshotKey top)
  /\ (cacheByOutlet s !! outletKey = None ->
      shouldAttach findTop location s route = (false, s))
  /\ (forall o cache,
        outlet = Some o ->
        cacheByOutlet s !! outletKey = Some cache ->
        Outlet.shouldDetach
          (outlets (snd (shouldAttach findTop location s route)) o)
        = JSBool true).
Proof.
  intros top outlet outletKey; subst top outlet outletKey.
  unfold shouldAttach.
  destruct (findValidOutletAndKey location s (findTop route))
    as [outlet outletKey]; cbn.
  destruct (cacheByOutlet s !! outletKey) as [cache|] eqn:Hc.
  - assert (Hres : forall b st, fst (match outlet with
                                     | Some o => (b, st o)
                                     | None => (b, s)
                                     end : bool * State) = b)
      by (intros b st; now destruct outlet).
    split; [|split].
    + rewrite (Hres _ (fun o => setOutlets _ s)).
      rewrite andb_true_iff. split.
      * intros [Hb Hk].
        destruct (fst (DetachedStateCache.peek cache)) as [item|] eqn:Hp;
          [|discriminate].
        apply String.eqb_eq in Hk. now exists cache, item.
      * intros (c & item & [= <-] & Hb & Hp & Hk).
        rewrite Hp. split; [assumption|]. now apply String.eqb_eq.
    + discriminate.
    + intros o c -> _. simpl. now rewrite updateOutlet_same.
  - split; [|split].
    + split; [discriminate|]. intros (c & item & Hc' & _); discriminate.
    + reflexivity.
    + intros o c _ Hc'; discriminate.
Qed.

(** C4. [store] with a handle returns normally; afterwards the cache of
    the resolved outlet key is the cache it had before (the empty cache
    when it had none) with exactly one more item on top, whose key is the
    snapshot key of the route, whose state is the handle and whose
    [isModal] flag is set exactly when [_modalNavigationDepth] is
    positive; the caches of all other outlet keys are as before. *)
Theorem store_handle_spec (s : State) (route : Snapshot)
  (handle : DetachedRouteHandle) :
  let top := findTop route in
  let outletKey := snd (findValidOutletAndKey location s top) in
  let before :=
    default DetachedStateCache.new (cacheByOutlet s !! outletKey) in
  let item :=
    CacheItem.Make (getSnapshotKey top) handle
                   (0 <? _modalNavigationDepth location)%Z in
  let s' := snd (store findTop location s route (Some handle)) in
  fst (store findTop location s route (Some handle)) = Normal tt
  /\ cacheByOutlet s' !! outletKey
     = Some (DetachedStateCache.push item before)
  /\ DetachedStateCache.cache (DetachedStateCache.push item before)
     = DetachedStateCache.cache before ++ [item]
  /\ (CacheItem.isModal item = true
      <-> (0 < _modalNavigationDepth location)%Z)
  /\ (forall k, k <> outletKey ->
                cacheByOutlet s' !! k = cacheByOutlet s !! k)
  /\ outlets s' = outlets s
  /\ marks s' = marks s
  /\ destroyed s' = destroyed s.
Proof.
  intros top outletKey before item s'.
  subst top outletKey before item s'. unfold store.
  destruct (findValidOutletAndKey location s (findTop route))
    as [outlet outletKey]; cbn.
  repeat split.
  - now rewrite lookup_insert_eq.
  - intros H. now apply Z.ltb_lt.
  - intros H. now apply Z.ltb_lt.
  - intros k Hk. now rewrite !lookup_insert_ne.
Qed.

(** C5. [store] with a [null] handle, when the cache of the resolved
    outlet key exists and has a top item: if the key of the top item is
    the snapshot key of the route, the call returns normally, the top item
    is popped, and the cache is removed from [cacheByOutlet] when nothing
    is left in it; if the keys differ, the call throws and the state is
    the one before the call.  Other outlet keys are never touched. *)
Theorem store_null_spec (s : State) (route : Snapshot)
  (cache : DetachedStateCache.t) (topItem : CacheItem) :
  let top := findTop route in
  let outletKey := snd (findValidOutletAndKey location s top) in
  let rest := snd (DetachedStateCache.pop cache) in
  let s' := snd (store findTop location s route None) in
  cacheByOutlet s !! outletKey = Some cache ->
  fst (DetachedStateCache.peek cache) = Some topItem ->
  (CacheItem.key topItem = getSnapshotKey top ->
   fst (store findTop location s route None) = Normal tt
   /\ fst (DetachedStateCache.pop cache) = Some topItem
   /\ (DetachedStateCache.length rest <> 0 ->
       cacheByOutlet s' !! outletKey = Some rest)
   /\ (DetachedStateCache.length rest = 0 ->
       cacheByOutlet s' !! outletKey = None)
   /\ (forall k, k <> outletKey ->
                 cacheByOutlet s' !! k = cacheByOutlet s !! k))
  /\ (CacheItem.key topItem <> getSnapshotKey top ->
      store findTop location s route None
      = (Throw (KeysDontMatch (CacheItem.key topItem) (getSnapshotKey top)),
         s)).
Proof.
  intros top outletKey rest s'. subst top outletKey rest s'.
  unfold store.
  destruct (findValidOutletAndKey location s (findTop route))
    as [outlet outletKey]; cbn.
  intros Hc Hp. rewrite Hc; cbn. rewrite Hp.
  rewrite (setCacheByOutlet_id s outletKey cache Hc).
  destruct (String.eqb_spec (CacheItem.key topItem)
              (getSnapshotKey (findTop route))) as [Hk|Hk].
  - split; [intros _|intros Hne; now destruct Hne].
    destruct (Nat.eqb_spec
                (DetachedStateCache.length (snd (DetachedStateCache.pop cache)))
                0) as [Hl|Hl]; cbn.
    + repeat split.
      * rewrite <- Hp. rewrite peek_last. reflexivity.
      * intros Hne; now destruct Hne.
      * intros _. now rewrite lookup_delete_eq.
      * intros k Hne. now rewrite lookup_delete_ne, !lookup_insert_ne by done.
    + repeat split.
      * rewrite <- Hp. rewrite peek_last. reflexivity.
      * intros _. now rewrite lookup_insert_eq.
      * intros Hz; now destruct Hl.
      * intros k Hne. now rewrite !lookup_insert_ne by done.
  - split; [intros Hk'; now destruct Hk|]. reflexivity.
Qed.

(** C7. [shouldReuseRoute] returns [true] exactly when both snapshots
    refer to the same [routeConfig]; and when it does and the current
    snapshot carries the page-router-activated marker, the future
    snapshot carries the same marker afterwards. *)
Theorem shouldReuseRoute_spec (s : State) (future curr : Snapshot) :
  (fst (shouldReuseRoute s future curr) = true
   <-> ActivatedRouteSnapshot.routeConfig future
       = ActivatedRouteSnapshot.routeConfig curr)
  /\ (fst (shouldReuseRoute s future curr) = true ->
      truthy (getMark (marks s) curr) = true ->
      getMark (marks (snd (shouldReuseRoute s future curr))) future
      = getMark (marks s) curr).
Proof.
  unfold shouldReuseRoute.
  destruct (bool_decide_reflect
              (ActivatedRouteSnapshot.routeConfig future
               = ActivatedRouteSnapshot.routeConfig curr)) as [Hcfg|Hcfg];
    cbn.
  - destruct (truthy (getMark (marks s) curr)) eqn:Hm; cbn.
    + repeat split; try done. intros _ _.
      unfold getMark at 1, setMark. now rewrite lookup_insert_eq.
    + repeat split; done.
  - repeat split; done.
Qed.

End StrategyFacts.

Section StrategyInstances.

Import NSRouteReuseStrategy.

Example getSnapshotKey_home :
  getSnapshotKey Sample.home
  = "Route(url:'', path:'')->Route(url:'home', path:'home')".
Proof. reflexivity. Qed.

(** The outlet is found one level up, under a key the outlet knows. *)
Example findValidOutletAndKey_walks_up :
  let location :=
    {| getRouteFullPath := fun r =>
         match ActivatedRouteSnapshot.parent r with
         | Some _ => "home-primary"
         | None => "primary"
         end;
       findOutlet := fun k _ =>
         if String.eqb k "primary" then Some 0 else None;
       _modalNavigationDepth := 0 |} in
  let s :=
    {| cacheByOutlet := ∅;
       outlets := fun _ => Outlet.Make false (JSBool true) ["primary"] None [7];
       marks := ∅; destroyed := [] |} in
  findValidOutletAndKey location s Sample.home = (Some 0, "primary").
Proof. reflexivity. Qed.

Lemma retrieve_spec_witness :
  fst (retrieve (fun r => r) (Sample.location 0)
         (Sample.state true (JSBool true)
            {["home" := DetachedStateCache.Make [Sample.homeItem]]} ∅)
         Sample.home)
  = Some (Sample.handle 11).
Proof.
  apply (proj1 (proj2 (retrieve_spec (fun r => r) (Sample.location 0)
                         (Sample.state true (JSBool true)
                            {["home" := DetachedStateCache.Make
                                          [Sample.homeItem]]} ∅)
                         Sample.home))
           (DetachedStateCache.Make [Sample.homeItem]) Sample.homeItem);
    reflexivity.
Defined.

Lemma shouldDetach_spec_witness :
  exists o,
    Some 0 = Some o
    /\ Outlet.isPageNavigationBack (Sample.outlet false (JSBool true)) = false
    /\ (exists a, a ∈ ActivatedRouteSnapshot.pathFromRoot Sample.home
                  /\ getMark {[1 := JSBool true]} a = JSBool true)
    /\ (forall p, Outlet.parent (Sample.outlet false (JSBool true)) = Some p ->
                  truthy (Outlet.shouldDetach
                            (Sample.outlet false (JSBool true))) = true).
Proof.
  exact (proj1 (shouldDetach_spec (fun r => r) (Sample.location 0)
                  (Sample.state false (JSBool true) ∅ {[1 := JSBool true]})
                  Sample.home) eq_refl).
Defined.

Lemma shouldAttach_spec_witness :
  Outlet.shouldDetach
    (outlets
       (snd (shouldAttach (fun r => r) (Sample.location 0)
               (Sample.state false (JSBool false)
                  {["home" := DetachedStateCache.Make [Sample.homeItem]]} ∅)
               Sample.detail)) 0)
  = JSBool true.
Proof.
  apply (proj2 (proj2 (shouldAttach_spec (fun r => r) (Sample.location 0)
                         (Sample.state false (JSBool false)
                            {["home" := DetachedStateCache.Make
                                          [Sample.homeItem]]} ∅)
                         Sample.detail))
           0 (DetachedStateCache.Make [Sample.homeItem]));
    reflexivity.
Defined.

Lemma store_handle_spec_witness :
  cacheByOutlet
    (snd (store (fun r => r) (Sample.location 1)
            (Sample.state false (JSBool true)
               {["tabs" := DetachedStateCache.Make [Sample.homeItem]]} ∅)
            Sample.home (Some (Sample.handle 12))))
  !! "tabs"
  = Some (DetachedStateCache.Make [Sample.homeItem]).
Proof.
  rewrite (proj1 (proj2 (proj2 (proj2 (proj2
             (store_handle_spec (fun r => r) (Sample.location 1)
                (Sample.state false (JSBool true)
                   {["tabs" := DetachedStateCache.Make [Sample.homeItem]]} ∅)
                Sample.home (Sample.handle 12))))))
             "tabs").
  - reflexivity.
  - discriminate.
Defined.

Lemma store_null_spec_witness :
  fst (store (fun r => r) (Sample.location 0)
         (Sample.state true (JSBool true)
            {["home" := DetachedStateCache.Make [Sample.homeItem]]} ∅)
         Sample.home None)
  = Normal tt.
Proof.
  refine (proj1 (proj1 (store_null_spec (fun r => r) (Sample.location 0)
                          (Sample.state true (JSBool true)
                             {["home" := DetachedStateCache.Make
                                           [Sample.homeItem]]} ∅)
                          Sample.home
                          (DetachedStateCache.Make [Sample.homeItem])
                          Sample.homeItem _ _) _));
    reflexivity.
Defined.

Lemma shouldReuseRoute_spec_witness :
  getMark
    (marks (snd (shouldReuseRoute
                   (Sample.state false (JSBool true) ∅ {[2 := JSBool true]})
                   Sample.detail Sample.home)))
    Sample.detail
  = JSBool true.
Proof.
  rewrite (proj2 (shouldReuseRoute_spec
                    (Sample.state false (JSBool true) ∅ {[2 := JSBool true]})
                    Sample.detail Sample.home));
    reflexivity.
Defined.

End StrategyInstances.

(** ** [PageRouterOutlet] *)

Section OutletFacts.

Import PageRouterOutlet.

Variable findTop : Snapshot -> Snapshot.
Variable locationStrategy : NSLocationStrategy.

(** C9. On an outlet that is not activated [detach] returns [undefined]
    and changes nothing.  On an activated outlet it returns the activated
    component ref and leaves [activated] and [_activatedRoute] [null];
    and [attach] with that component ref and the route that was activated
    then gives both fields, and the whole outlet object, the values they
    had before [detach]. *)
Theorem detach_attach_spec (this : PageRouterOutlet.t) (w : World) :
  (activated this = None -> detach this w = (None, this, w))
  /\ (forall component,
        activated this = Some component ->
        let this' := snd (fst (detach this w)) in
        let w' := snd (detach this w) in
        fst (fst (detach this w)) = Some component
        /\ activated this' = None
        /\ _activatedRoute this' = None
        /\ (forall activatedRoute,
              _activatedRoute this = Some activatedRoute ->
              let this'' :=
                fst (attach findTop locationStrategy component activatedRoute
                            this' w') in
              activated this'' = activated this
              /\ _activatedRoute this'' = _activatedRoute this
              /\ this'' = this)).
Proof.
  destruct this as [act route nm ctx fr]; unfold detach; simpl.
  split.
  - now intros ->.
  - intros component ->; simpl.
    repeat split; try reflexivity; now subst route.
Qed.

End OutletFacts.

Lemma detach_attach_spec_witness :
  let route :=
    {| routeId := 1; snapshot := SnapshotNode Sample.home [] |} in
  let this :=
    PageRouterOutlet.Make (Some 4) (Some route) "primary"
                          (Contexts (fun _ => None)) 9 in
  let w :=
    {| PageRouterOutlet.marks := ∅;
       PageRouterOutlet.outlets := fun _ => Sample.outlet false (JSBool true);
       PageRouterOutlet.trace := [] |} in
  fst (PageRouterOutlet.attach (fun r => r) (Sample.location 0) 4 route
         (snd (fst (PageRouterOutlet.detach this w)))
         (snd (PageRouterOutlet.detach this w)))
  = this.
Proof.
  intros route this w.
  apply (proj2 (proj2 (proj2 (proj2 (detach_attach_spec
                  (fun r => r) (Sample.location 0) this w) 4 eq_refl)))
           route eq_refl).
Defined.

(** ** The action bar *)

Section ActionBarFacts.

Import actionBarMeta.

Lemma indexOf_first (l1 l2 : list NgView) (x : NgView) :
  x ∉ l1 -> indexOf (l1 ++ x :: l2) x = Z.of_nat (length l1).
Proof.
  induction l1 as [|y l1 IH]; simpl; intros Hx.
  - now rewrite bool_decide_eq_true_2.
  - rewrite not_elem_of_cons in Hx. destruct Hx as [Hxy Hx].
    rewrite bool_decide_eq_false_2 by congruence.
    rewrite (IH Hx).
    destruct (Z.ltb_spec (Z.of_nat (length l1)) 0); lia.
Qed.

Lemma spliceInsert_at (l1 l2 : list NgView) (x : NgView) :
  spliceInsert (l1 ++ l2) (Z.of_nat (length l1)) x = l1 ++ x :: l2.
Proof.
  unfold spliceInsert. rewrite length_app.
  destruct (Z.ltb_spec (Z.of_nat (length l1)) 0) as [Hneg|_]; [lia|].
  rewrite Z.min_l by lia. rewrite Nat2Z.id.
  now rewrite take_app_length, drop_app_length.
Qed.

Lemma removeItem_first (l1 l2 : list NgView) (x : NgView) :
  x ∉ l1 ->
  ActionItems.removeItem x (l1 ++ x :: l2) = (Normal tt, l1 ++ l2).
Proof.
  intros Hx. unfold ActionItems.removeItem. rewrite (indexOf_first _ _ _ Hx).
  destruct (Z.ltb_spec (Z.of_nat (length l1)) 0) as [Hneg|_]; [lia|].
  rewrite Nat2Z.id, take_app_length.
  change (l1 ++ x :: l2) with (l1 ++ [x] ++ l2).
  rewrite app_assoc.
  replace (S (length l1)) with (length (l1 ++ [x]))
    by (rewrite length_app; simpl; lia).
  now rewrite drop_app_length.
Qed.

Lemma spliceInsert_split (xs : list NgView) (start : Z) (item : NgView) :
  exists l1 l2, xs = l1 ++ l2 /\ spliceInsert xs start item = l1 ++ item :: l2.
Proof.
  unfold spliceInsert. eexists _, _. split; [|reflexivity].
  symmetry. apply take_drop.
Qed.

Lemma NoDup_insert_middle (l1 l2 : list NgView) (x : NgView) :
  NoDup (l1 ++ x :: l2) <-> (x ∉ l1 ++ l2) /\ NoDup (l1 ++ l2).
Proof.
  rewrite <- NoDup_cons.
  assert (Hperm : (l1 ++ x :: l2) ≡ₚ (x :: (l1 ++ l2)))
    by (symmetry; apply Permutation_middle).
  now rewrite Hperm.
Qed.

(** Adding items none of which is in the collection or occurs twice. *)
Lemma addItems_fresh (items acc : list NgView) :
  NoDup (acc ++ items) ->
  ActionItems.addItems items acc = (Normal tt, acc ++ items).
Proof.
  revert acc. induction items as [|x items IH]; intros acc Hnd; simpl.
  - now rewrite app_nil_r.
  - apply NoDup_insert_middle in Hnd as Hx. destruct Hx as [Hx _].
    unfold ActionItems.addItem.
    rewrite bool_decide_eq_false_2
      by (intros Hin; apply Hx, elem_of_app; now left).
    rewrite IH; rewrite <- app_assoc; [reflexivity|exact Hnd].
Qed.

(** Adding a list that holds an item of the collection, or an item
    twice, throws. *)
Lemma addItems_throws (items acc : list NgView) :
  NoDup acc -> ~ NoDup (acc ++ items) ->
  fst (ActionItems.addItems items acc) = Throw ViewAlreadyHasParent.
Proof.
  revert acc. induction items as [|x items IH]; intros acc Hacc Hnd; simpl.
  - rewrite app_nil_r in Hnd. now destruct Hnd.
  - unfold ActionItems.addItem. case_bool_decide as Hx; [reflexivity|].
    apply IH.
    + apply NoDup_app. split; [assumption|]. split; [|apply NoDup_singleton].
      intros y Hy Hy'. apply list_elem_of_singleton in Hy'. now subst y.
    + now rewrite <- app_assoc.
Qed.

Lemma itemsAfterInsert_split (items : list NgView) (child : NgView)
  (next : option NgView) :
  exists l1 l2, items = l1 ++ l2
                /\ itemsAfterInsert items child next = l1 ++ child :: l2.
Proof.
  destruct next as [n|]; simpl; [apply spliceInsert_split|].
  exists items, []. split; [now rewrite app_nil_r|reflexivity].
Qed.

Lemma insertChild_actionItem_fresh
  (s : ActionBarState) (child : NgView) (next : option NgView) :
  viewClass child = ActionItemClass ->
  NoDup (actionItems (bar s)) ->
  child ∉ actionItems (bar s) ->
  actionBarMeta.insertChild s child next
  = (Normal tt,
     {| bar := setActionItems
                 (itemsAfterInsert (actionItems (bar s)) child next) (bar s);
        parentNode := <[viewId child := barId (bar s)]> (parentNode s) |}).
Proof.
  destruct s as [[bid nav items title] pn].
  destruct child as [cid cls]; simpl. intros -> Hnd Hc.
  unfold actionBarMeta.insertChild, isInvisibleNode, isNavigationButton,
    isActionItem; simpl.
  destruct next as [n|]; simpl.
  - unfold insertActionItemBefore, ActionItems.setItems,
      ActionItems.getItems; simpl.
    destruct (spliceInsert_split items (indexOf items n)
                {| viewId := cid; viewClass := ActionItemClass |})
      as (l1 & l2 & -> & ->).
    rewrite addItems_fresh; [reflexivity|].
    simpl. now apply NoDup_insert_middle.
  - unfold appendActionItem, ActionItems.addItem; simpl.
    now rewrite bool_decide_eq_false_2.
Qed.

Lemma insertChild_actionItem_present
  (s : ActionBarState) (child : NgView) (next : option NgView) :
  viewClass child = ActionItemClass ->
  child ∈ actionItems (bar s) ->
  fst (actionBarMeta.insertChild s child next) = Throw ViewAlreadyHasParent
  /\ parentNode (snd (actionBarMeta.insertChild s child next))
     = parentNode s.
Proof.
  destruct s as [[bid nav items title] pn].
  destruct child as [cid cls]; simpl. intros -> Hc.
  unfold actionBarMeta.insertChild, isInvisibleNode, isNavigationButton,
    isActionItem; simpl.
  set (c := {| viewId := cid; viewClass := ActionItemClass |}) in *.
  assert (Hthrow : fst (addActionItem
                          {| barId := bid; navigationButton := nav;
                             actionItems := items; titleView := title |}
                          c next)
                   = Throw ViewAlreadyHasParent).
  { destruct next as [n|]; simpl.
    - unfold insertActionItemBefore, ActionItems.setItems,
        ActionItems.getItems; simpl.
      pose proof (addItems_throws (spliceInsert items (indexOf items n) c) [])
        as Hthrows.
      destruct (ActionItems.addItems _ _) as [r items']; simpl in *.
      apply Hthrows; [apply NoDup_nil_2|].
      destruct (spliceInsert_split items (indexOf items n) c)
        as (l1 & l2 & -> & ->).
      simpl. rewrite NoDup_insert_middle. tauto.
    - unfold appendActionItem, ActionItems.addItem; simpl.
      now rewrite bool_decide_eq_true_2. }
  destruct (addActionItem _ c next) as [r b']; simpl in Hthrow; subst r.
  now split.
Qed.

End ActionBarFacts.

(** C10 as stated fails: on an action bar that already has a navigation
    button, inserting another one and removing it again leaves the bar
    without any navigation button, not with the one it had. *)
Lemma removeChild_insertChild_drops_previous_button :
  let previous := {| viewId := 1; viewClass := NavigationButtonClass |} in
  let child := {| viewId := 2; viewClass := NavigationButtonClass |} in
  let s :=
    {| bar := {| barId := 0; navigationButton := Some previous;
                 actionItems := []; titleView := None |};
       parentNode := {[1 := 0]} |} in
  exists s',
    fst (actionBarMeta.insertChild s child None) = Normal tt
    /\ actionBarMeta.removeChild
         (snd (actionBarMeta.insertChild s child None)) child
       = (Normal tt, s')
    /\ navigationButton (bar s') = None
    /\ bar s' <> bar s.
Proof.
  eexists. split; [reflexivity|]. split; [reflexivity|].
  split; [reflexivity|]. discriminate.
Qed.

(** C10, amended. Invisible nodes are ignored by [insertChild] and by
    [removeChild].  A navigation button is set by [insertChild] and
    cleared to [null] by the following [removeChild]; a title view
    likewise; which gives back the action bar when that slot was [null]
    before.  An action item that is not yet in the collection (which
    holds no item twice) is appended when [next] is absent and put
    immediately before [next] when [next] is in the collection; and
    whatever [next] is, the following [removeChild] removes it again and
    gives back the action bar. *)
Theorem insertChild_removeChild_spec
  (s : ActionBarState) (child : NgView) (next : option NgView) :
  let s1 := snd (actionBarMeta.insertChild s child next) in
  (* invisible nodes *)
  (viewClass child = InvisibleNodeClass ->
   actionBarMeta.insertChild s child next = (Normal tt, s)
   /\ actionBarMeta.removeChild s child = (Normal tt, s))
  (* navigation button *)
  /\ (viewClass child = NavigationButtonClass ->
      fst (actionBarMeta.insertChild s child next) = Normal tt
      /\ navigationButton (bar s1) = Some child
      /\ exists s',
          actionBarMeta.removeChild s1 child = (Normal tt, s')
          /\ bar s' = setNavigationButton None (bar s)
          /\ (navigationButton (bar s) = None -> bar s' = bar s))
  (* action item *)
  /\ (viewClass child = ActionItemClass ->
      NoDup (actionItems (bar s)) ->
      child ∉ actionItems (bar s) ->
      fst (actionBarMeta.insertChild s child next) = Normal tt
      /\ (next = None ->
          actionItems (bar s1) = actionItems (bar s) ++ [child])
      /\ (forall n before after,
            next = Some n ->
            actionItems (bar s) = before ++ n :: after ->
            actionItems (bar s1) = before ++ child :: n :: after)
      /\ exists s',
          actionBarMeta.removeChild s1 child = (Normal tt, s')
          /\ bar s' = bar s)
  (* title view *)
  /\ (viewClass child = ViewClassOther ->
      fst (actionBarMeta.insertChild s child next) = Normal tt
      /\ titleView (bar s1) = Some child
      /\ exists s',
          actionBarMeta.removeChild s1 child = (Normal tt, s')
          /\ bar s' = setTitleView None (bar s)
          /\ (titleView (bar s) = None -> s' = s)).
Proof.
  intros s1; subst s1.
  split; [|split; [|split]].
  - destruct s as [[bid nav items title] pn].
    destruct child as [cid cls]; simpl. intros ->.
    split; reflexivity.
  - destruct s as [[bid nav items title] pn].
    destruct child as [cid cls]; simpl. intros ->.
    unfold actionBarMeta.insertChild, actionBarMeta.removeChild,
      isInvisibleNode, isNavigationButton, isActionItem, isView; simpl.
    split; [reflexivity|]. split; [reflexivity|].
    rewrite bool_decide_eq_true_2 by reflexivity.
    eexists; split; [reflexivity|]. simpl.
    split; [reflexivity|]. now intros ->.
  - intros Hcls Hnd Hchild.
    rewrite (insertChild_actionItem_fresh s child next Hcls Hnd Hchild).
    cbn [fst snd bar actionItems setActionItems].
    split; [reflexivity|]. split; [now intros ->|]. split.
    + intros n before after -> Hitems. simpl. rewrite Hitems.
      rewrite Hitems in Hnd. apply NoDup_app in Hnd as (_ & Hn & _).
      rewrite indexOf_first.
      * apply spliceInsert_at.
      * intros Hin. apply (Hn n Hin). apply elem_of_cons; now left.
    + destruct (itemsAfterInsert_split (actionItems (bar s)) child next)
        as (l1 & l2 & Hitems & Hins).
      destruct s as [[bid nav items title] pn].
      destruct child as [cid cls]; simpl in *. subst cls items.
      unfold actionBarMeta.removeChild, isInvisibleNode, isNavigationButton,
        isActionItem; simpl.
      rewrite Hins, removeItem_first.
      * eexists; split; reflexivity.
      * intros Hin. apply Hchild. apply elem_of_app; now left.
  - destruct s as [[bid nav items title] pn].
    destruct child as [cid cls]; simpl. intros ->.
    unfold actionBarMeta.insertChild, actionBarMeta.removeChild,
      isInvisibleNode, isNavigationButton, isActionItem, isView; simpl.
    split; [reflexivity|]. split; [reflexivity|].
    rewrite bool_decide_eq_true_2 by reflexivity.
    eexists; split; [reflexivity|]. simpl.
    split; [reflexivity|]. now intros ->.
Qed.

Lemma insertChild_removeChild_spec_witness :
  let a := {| viewId := 1; viewClass := ActionItemClass |} in
  let b := {| viewId := 2; viewClass := ActionItemClass |} in
  let child := {| viewId := 3; viewClass := ActionItemClass |} in
  let s :=
    {| bar := {| barId := 0; navigationButton := None;
                 actionItems := [a; b]; titleView := None |};
       parentNode := ∅ |} in
  actionItems (bar (snd (actionBarMeta.insertChild s child (Some b))))
  = [a; child; b].
Proof.
  intros a b child s.
  refine (proj1 (proj2 (proj2 (proj1 (proj2 (proj2
            (insertChild_removeChild_spec s child (Some b)))) eq_refl _ _)))
            b [a] [] eq_refl eq_refl).
  - apply (bool_decide_unpack _); vm_compute; exact I.
  - apply (bool_decide_unpack _); vm_compute; exact I.
Defined.

(** When [next] is given but is not in the collection, [indexOf] answers
    [-1] and [splice] counts that from the end: the item lands before the
    last item of the collection. *)
Lemma insertChild_next_outside_collection :
  let a := {| viewId := 1; viewClass := ActionItemClass |} in
  let b := {| viewId := 2; viewClass := ActionItemClass |} in
  let child := {| viewId := 3; viewClass := ActionItemClass |} in
  let next := {| viewId := 4; viewClass := InvisibleNodeClass |} in
  let s :=
    {| bar := {| barId := 0; navigationButton := None;
                 actionItems := [a; b]; titleView := None |};
       parentNode := ∅ |} in
  fst (actionBarMeta.insertChild s child (Some next)) = Normal tt
  /\ actionItems (bar (snd (actionBarMeta.insertChild s child (Some next))))
     = [a; child; b].
Proof. split; reflexivity. Qed.

(** An action item that is already in the collection is refused: the
    toolkit throws at the second [addItem] of the same view. *)
Lemma insertChild_item_already_present :
  let a := {| viewId := 1; viewClass := ActionItemClass |} in
  let b := {| viewId := 2; viewClass := ActionItemClass |} in
  let s :=
    {| bar := {| barId := 0; navigationButton := None;
                 actionItems := [a; b]; titleView := None |};
       parentNode := {[1 := 0; 2 := 0]} |} in
  fst (actionBarMeta.insertChild s b None) = Throw ViewAlreadyHasParent
  /\ fst (actionBarMeta.insertChild s b (Some a))
     = Throw ViewAlreadyHasParent.
Proof. split; reflexivity. Qed.

(** * Further properties of the route reuse strategy *)

Section StrategyMore.

Import NSRouteReuseStrategy.

#[local] Arguments DetachedStateCache.peek : simpl never.
#[local] Arguments DetachedStateCache.pop : simpl never.
#[local] Arguments DetachedStateCache.push : simpl never.

Variable findTop : Snapshot -> Snapshot.
Variable location : NSLocationStrategy.

(** The resolution of outlet and key reads the outlets only. *)
Lemma findValidOutletAndKey_outlets (s1 s2 : State) (route : Snapshot) :
  outlets s1 = outlets s2 ->
  findValidOutletAndKey location s1 route
  = findValidOutletAndKey location s2 route.
Proof. unfold findValidOutletAndKey. now intros ->. Qed.

(** [store] with a handle, as one equation. *)
Lemma store_handle_eq (s : State) (route : Snapshot)
  (handle : DetachedRouteHandle) :
  store findTop location s route (Some handle)
  = (Normal tt,
     setCacheByOutlet
       (<[snd (findValidOutletAndKey location s (findTop route)) :=
            DetachedStateCache.push
              (CacheItem.Make (getSnapshotKey (findTop route)) handle
                              (0 <? _modalNavigationDepth location)%Z)
              (default DetachedStateCache.new
                 (cacheByOutlet s
                  !! snd (findValidOutletAndKey location s (findTop route))))]>
          (cacheByOutlet s)) s).
Proof.
  unfold store.
  destruct (findValidOutletAndKey location s (findTop route))
    as [outlet outletKey]; cbn.
  unfold setCacheByOutlet; cbn. now rewrite insert_insert_eq.
Qed.

Lemma state_eq (s : State) (m : gmap string DetachedStateCache.t) :
  m = cacheByOutlet s -> setCacheByOutlet m s = s.
Proof. intros ->. now destruct s. Qed.

(** X1. A [store] with a handle followed by a [store] with [null] for
    the same route returns normally and undoes the first call: the state
    is the one before both calls, except that a cache that was registered
    but empty is unregistered (and nothing else differs). *)
Theorem store_then_store_null (s : State) (route : Snapshot)
  (handle : DetachedRouteHandle) :
  let outletKey := snd (findValidOutletAndKey location s (findTop route)) in
  let s1 := snd (store findTop location s route (Some handle)) in
  fst (store findTop location s1 route None) = Normal tt
  /\ (cacheByOutlet s !! outletKey = None ->
      snd (store findTop location s1 route None) = s)
  /\ (forall before,
        cacheByOutlet s !! outletKey = Some before ->
        DetachedStateCache.length before <> 0 ->
        snd (store findTop location s1 route None) = s)
  /\ (forall before,
        cacheByOutlet s !! outletKey = Some before ->
        DetachedStateCache.length before = 0 ->
        snd (store findTop location s1 route None)
        = setCacheByOutlet (delete outletKey (cacheByOutlet s)) s).
Proof.
  intros outletKey s1; subst outletKey s1.
  rewrite store_handle_eq; cbn [snd].
  set (k := snd (findValidOutletAndKey location s (findTop route))).
  set (item := CacheItem.Make _ _ _).
  set (before := default DetachedStateCache.new (cacheByOutlet s !! k)).
  unfold store.
  rewrite (findValidOutletAndKey_outlets _ s) by reflexivity.
  fold k. destruct (findValidOutletAndKey location s (findTop route))
    as [outlet outletKey] eqn:Hf. cbn in k. subst k.
  cbn. rewrite lookup_insert_eq; cbn. rewrite peek_push; cbn.
  rewrite String.eqb_refl, pop_push; cbn.
  rewrite !insert_insert_eq.
  destruct (Nat.eqb_spec (DetachedStateCache.length before) 0) as [Hl|Hl];
    cbn; rewrite ?delete_insert_eq.
  - split; [reflexivity|]. split; [|split].
    + intros Hnone. unfold setCacheByOutlet; cbn.
      rewrite delete_id by assumption. now destruct s.
    + intros b Hb Hne. subst before. rewrite Hb in Hl. now destruct Hne.
    + reflexivity.
  - split; [reflexivity|]. split; [|split].
    + intros Hnone. subst before. rewrite Hnone in Hl. now destruct Hl.
    + intros b Hb _. subst before. rewrite Hb; cbn.
      unfold setCacheByOutlet; cbn. rewrite insert_id by assumption.
      now destruct s.
    + intros b Hb Hz. subst before. rewrite Hb in Hl. now destruct Hl.
Qed.

(** X2. What [store] puts on the cache is what a back navigation gets:
    after [store] with a handle, if the resolved outlet performs a page
    back navigation, [shouldAttach] for the same route answers [true] and
    [retrieve] returns that handle. *)
Theorem store_then_retrieve (s : State) (route : Snapshot)
  (handle : DetachedRouteHandle) :
  let outlet := fst (findValidOutletAndKey location s (findTop route)) in
  let s1 := snd (store findTop location s route (Some handle)) in
  isBackOf s outlet = true ->
  fst (shouldAttach findTop location s1 route) = true
  /\ fst (retrieve findTop location s1 route) = Some handle.
Proof.
  intros outlet s1 Hback; subst outlet s1.
  rewrite store_handle_eq; cbn [snd].
  set (item := CacheItem.Make _ _ _).
  unfold shouldAttach, retrieve.
  rewrite (findValidOutletAndKey_outlets _ s) by reflexivity.
  destruct (findValidOutletAndKey location s (findTop route))
    as [outlet outletKey]; cbn in *.
  rewrite lookup_insert_eq, peek_push.
  unfold isBackOf in *; cbn. rewrite Hback; cbn.
  rewrite String.eqb_refl. split; [|reflexivity].
  now destruct outlet.
Qed.

(** X3. [store] with [null] when no cache is registered for the resolved
    outlet key (or an empty one is) throws a [TypeError] at
    [topItem.key], and by then an empty cache is registered under the
    key: the state is not the one before the call. *)
Theorem store_null_without_items (s : State) (route : Snapshot) :
  let outletKey := snd (findValidOutletAndKey location s (findTop route)) in
  let s1 := snd (store findTop location s route None) in
  (cacheByOutlet s !! outletKey = None ->
   fst (store findTop location s route None) = Throw TypeError
   /\ cacheByOutlet s1 !! outletKey = Some DetachedStateCache.new
   /\ s1 <> s)
  /\ (forall cache,
        cacheByOutlet s !! outletKey = Some cache ->
        DetachedStateCache.length cache = 0 ->
        store findTop location s route None = (Throw TypeError, s)).
Proof.
  intros outletKey s1; subst outletKey s1. unfold store.
  destruct (findValidOutletAndKey location s (findTop route))
    as [outlet outletKey]; cbn.
  split.
  - intros Hnone. rewrite Hnone; cbn.
    rewrite peek_last; cbn.
    split; [reflexivity|]. split; [now rewrite lookup_insert_eq|].
    intros Heq. apply (f_equal (fun st => cacheByOutlet st !! outletKey)) in Heq.
    cbn in Heq. rewrite lookup_insert_eq, Hnone in Heq. discriminate.
  - intros [c] Hc Hlen. rewrite Hc; cbn.
    unfold DetachedStateCache.length in Hlen; cbn in Hlen.
    apply nil_length_inv in Hlen; subst c. rewrite peek_last; cbn.
    now rewrite state_eq by (now rewrite insert_id).
Qed.

(** X4. [store] keeps [cacheByOutlet] free of empty caches whenever it
    returns normally (it unregisters a cache it has emptied); and on such
    a state [store] with [null] cannot fail with a [TypeError] once a
    cache is registered for the resolved key. *)
Theorem store_keeps_caches_non_empty (s : State) (route : Snapshot)
  (state : option DetachedRouteHandle) :
  cachesNonEmpty s ->
  (fst (store findTop location s route state) = Normal tt ->
   cachesNonEmpty (snd (store findTop location s route state)))
  /\ (is_Some (cacheByOutlet s
               !! snd (findValidOutletAndKey location s (findTop route))) ->
      fst (store findTop location s route state) <> Throw TypeError).
Proof.
  intros Hinv. unfold cachesNonEmpty in *.
  destruct state as [handle|].
  - rewrite store_handle_eq; cbn. split; [intros _|discriminate].
    apply map_Forall_insert_2; [|assumption].
    unfold DetachedStateCache.length, DetachedStateCache.push; cbn.
    rewrite length_app; cbn; lia.
  - unfold store.
    destruct (findValidOutletAndKey location s (findTop route))
      as [outlet outletKey]; cbn.
    destruct (cacheByOutlet s !! outletKey) as [cache|] eqn:Hc; cbn.
    + rewrite (state_eq s) by (now rewrite insert_id).
      pose proof (map_Forall_lookup_1 _ _ _ _ Hinv Hc) as Hne; cbn in Hne.
      destruct (fst (DetachedStateCache.peek cache)) as [topItem|] eqn:Hp.
      * destruct (String.eqb (CacheItem.key topItem)
                    (getSnapshotKey (findTop route))); cbn.
        -- destruct (Nat.eqb_spec
                       (DetachedStateCache.length
                          (snd (DetachedStateCache.pop cache))) 0)
             as [Hl|Hl]; cbn; (split; [intros _|discriminate]).
           ++ rewrite !delete_insert_eq. now apply map_Forall_delete.
           ++ rewrite insert_insert_eq. now apply map_Forall_insert_2.
        -- split; discriminate.
      * rewrite peek_last in Hp. apply last_None in Hp.
        destruct cache as [c]; cbn in *. subst c. now destruct Hne.
    + split; [discriminate|]. intros [x Hx]; discriminate.
Qed.

(** X5. [popCache] after a [store] with a handle takes the stored item
    off again and hands its component ref, if it has one, to
    [destroyComponentRef]; unlike [store] with [null] it leaves the cache
    registered, even when it is empty. *)
Theorem store_then_popCache (s : State) (route : Snapshot)
  (handle : DetachedRouteHandle) :
  let outletKey := snd (findValidOutletAndKey location s (findTop route)) in
  let before :=
    default DetachedStateCache.new (cacheByOutlet s !! outletKey) in
  let s2 :=
    popCache (snd (store findTop location s route (Some handle))) outletKey in
  cacheByOutlet s2 = <[outletKey := before]> (cacheByOutlet s)
  /\ destroyed s2
     = destroyed s ++ match componentRef handle with
                      | Some ref => [ref]
                      | None => []
                      end.
Proof.
  intros outletKey before s2; subst outletKey before s2.
  rewrite store_handle_eq; cbn [snd].
  set (k := snd (findValidOutletAndKey location s (findTop route))).
  unfold popCache; cbn.
  rewrite lookup_insert_eq, peek_push, pop_push; cbn.
  rewrite insert_insert_eq.
  destruct (componentRef handle); cbn; rewrite ?app_nil_r; now split.
Qed.

End StrategyMore.

(** * Further properties of [DetachedStateCache] *)

Section CacheMore.

Import DetachedStateCache.

Lemma clear_nil (log : list ComponentRef) :
  clear (Make []) log = (Normal tt, Make [], log).
Proof. now rewrite clear_equation_1. Qed.

(** One turn of the loop of [clear] on a cache whose top item is [x]. *)
Lemma clear_snoc (c : list CacheItem) (x : CacheItem)
  (log : list ComponentRef) :
  clear (Make (c ++ [x])) log =
  match componentRef (CacheItem.state x) with
  | None => (Throw NoComponentRef, Make c, log)
  | Some ref => clear (Make c) (log ++ [ref])
  end.
Proof.
  rewrite clear_equation_1.
  destruct (inspect (List.length (cache (Make (c ++ [x]))))) as [[|n] Hn].
  { exfalso. simpl in Hn. rewrite length_app in Hn; simpl in Hn; lia. }
  simpl. rewrite last_snoc. simpl.
  destruct (componentRef (CacheItem.state x)); simpl;
    now rewrite removelast_last.
Qed.

Lemma clear_above (c above : list CacheItem) (refs log : list ComponentRef) :
  map (fun i => componentRef (CacheItem.state i)) above = map Some refs ->
  clear (Make (c ++ above)) log = clear (Make c) (log ++ rev refs).
Proof.
  revert refs log.
  induction above as [|x above IH] using rev_ind; intros refs log Hrefs.
  - destruct refs; [|discriminate]. simpl. now rewrite !app_nil_r.
  - destruct refs as [|r refs] using rev_ind.
    { rewrite map_app in Hrefs. simpl in Hrefs.
      symmetry in Hrefs. now apply app_cons_not_nil in Hrefs. }
    clear IHrefs. rewrite !map_app in Hrefs. simpl in Hrefs.
    apply app_inj_tail in Hrefs as [Hrefs Hr].
    rewrite app_assoc, clear_snoc, Hr.
    rewrite (IH refs) by assumption.
    now rewrite rev_app_distr, <- app_assoc.
Qed.

(** X6. [clear] on a cache all of whose handles carry a component ref
    empties it and destroys every component ref, top first.  At the
    first item from the top whose handle carries none it throws; that
    item is already popped (in [clearModalCache] it would still be
    there), the items under it stay, and only the component refs of the
    items on top of it are destroyed. *)
Theorem clear_spec (this : DetachedStateCache.t) (log : list ComponentRef) :
  (forall refs,
     map (fun i => componentRef (CacheItem.state i)) (cache this)
     = map Some refs ->
     clear this log = (Normal tt, new, log ++ rev refs))
  /\ (forall below x above refs,
        cache this = below ++ x :: above ->
        componentRef (CacheItem.state x) = None ->
        map (fun i => componentRef (CacheItem.state i)) above
        = map Some refs ->
        clear this log = (Throw NoComponentRef, Make below, log ++ rev refs)).
Proof.
  destruct this as [c]; simpl. split.
  - intros refs Hrefs.
    change c with ([] ++ c). rewrite (clear_above [] c refs) by assumption.
    apply clear_nil.
  - intros below x above refs -> Hx Hrefs.
    change (below ++ x :: above) with (below ++ [x] ++ above).
    rewrite app_assoc, (clear_above _ above refs) by assumption.
    now rewrite clear_snoc, Hx.
Qed.

Lemma clear_spec_witness :
  let item := fun k r m =>
    CacheItem.Make k {| handleId := r; componentRef := Some r |} m in
  let broken :=
    CacheItem.Make "b" {| handleId := 2; componentRef := None |} false in
  clear (Make [item "a" 1 false; broken; item "c" 3 true]) [9]
  = (Throw NoComponentRef, Make [item "a" 1 false], [9; 3]).
Proof.
  intros item broken.
  apply (proj2 (clear_spec
                  (Make [item "a" 1 false; broken; item "c" 3 true]) [9])
           [item "a" 1 false] broken [item "c" 3 true] [3]);
    reflexivity.
Defined.

Lemma clearModalLoop_removes_top (c : list CacheItem)
  (log : list ComponentRef) :
  existsb CacheItem.isModal c = true ->
  exists removed refs,
    c = cache (snd (fst (clearModalLoop (Make c) log))) ++ removed
    /\ map (fun i => componentRef (CacheItem.state i)) removed = map Some refs
    /\ snd (clearModalLoop (Make c) log) = log ++ rev refs
    /\ Forall (fun i => CacheItem.isModal i = false) (tail removed)
    /\ (fst (fst (clearModalLoop (Make c) log)) = Normal tt
        \/ fst (fst (clearModalLoop (Make c) log)) = Throw NoComponentRef).
Proof.
  revert log. induction c as [|x c IH] using rev_ind; intros log Hex.
  - discriminate.
  - rewrite clearModalLoop_snoc.
    destruct (componentRef (CacheItem.state x)) as [ref|] eqn:Hx; simpl.
    + destruct (CacheItem.isModal x) eqn:Hm; simpl.
      * exists [x], [ref]. simpl. rewrite Hx. repeat split; auto.
      * rewrite existsb_app in Hex; simpl in Hex.
        rewrite Hm, orb_false_r in Hex.
        destruct (IH (log ++ [ref]) Hex)
          as (removed & refs & Hc & Hrefs & Hlog & Hnm & Hres).
        exists (removed ++ [x]), (refs ++ [ref]).
        split; [rewrite app_assoc; now f_equal|].
        split; [rewrite !map_app; simpl; now rewrite Hrefs, Hx|].
        split; [rewrite Hlog, rev_app_distr; simpl; now rewrite <- app_assoc|].
        split; [|assumption].
        destruct removed as [|y removed]; simpl; [constructor|].
        simpl in Hnm. apply Forall_app; split; [assumption|].
        now repeat constructor.
    + exists [], []. simpl. rewrite !app_nil_r. repeat split; auto.
Qed.

(** X7. Whatever the cache holds, [clearModalCache] only takes items off
    the top: what is left is an initial part of the array, the component
    refs destroyed are exactly those of the items taken off, top first,
    no item under the topmost modal one is taken off, and the call
    either returns or throws for a missing component ref: the loop never
    runs past the bottom of the array. *)
Theorem clearModalCache_removes_top
  (this : DetachedStateCache.t) (log : list ComponentRef) :
  exists removed refs,
    cache this = cache (snd (fst (clearModalCache this log))) ++ removed
    /\ map (fun i => componentRef (CacheItem.state i)) removed = map Some refs
    /\ snd (clearModalCache this log) = log ++ rev refs
    /\ Forall (fun i => CacheItem.isModal i = false) (tail removed)
    /\ (fst (fst (clearModalCache this log)) = Normal tt
        \/ fst (fst (clearModalCache this log)) = Throw NoComponentRef).
Proof.
  destruct this as [c]; unfold clearModalCache; simpl.
  destruct (existsb CacheItem.isModal c) eqn:Hex.
  - now apply clearModalLoop_removes_top.
  - exists [], []. simpl. rewrite !app_nil_r. repeat split; auto.
Qed.

End CacheMore.

(** * Outlet resolution and the detach decision *)

Section ResolutionFacts.

Import NSRouteReuseStrategy.

#[local] Arguments DetachedStateCache.peek : simpl never.
#[local] Arguments DetachedStateCache.pop : simpl never.
#[local] Arguments DetachedStateCache.push : simpl never.

Variable findTop : Snapshot -> Snapshot.
Variable location : NSLocationStrategy.

Lemma pathFromRoot_self (r : Snapshot) :
  r ∈ ActivatedRouteSnapshot.pathFromRoot r.
Proof.
  destruct r as [i str cfg [p|]]; simpl.
  - apply elem_of_app; right. now apply list_elem_of_singleton.
  - now apply list_elem_of_singleton.
Qed.

Lemma pathFromRoot_parent (r p a : Snapshot) :
  ActivatedRouteSnapshot.parent r = Some p ->
  a ∈ ActivatedRouteSnapshot.pathFromRoot p ->
  a ∈ ActivatedRouteSnapshot.pathFromRoot r.
Proof.
  destruct r as [i str cfg par]; simpl. intros -> Ha.
  apply elem_of_app; now left.
Qed.

Lemma pathFromRoot_inv (r a : Snapshot) :
  a ∈ ActivatedRouteSnapshot.pathFromRoot r ->
  a = r \/ exists p, ActivatedRouteSnapshot.parent r = Some p
                     /\ a ∈ ActivatedRouteSnapshot.pathFromRoot p.
Proof.
  destruct r as [i str cfg [p|]]; simpl.
  - intros [Ha|Ha]%elem_of_app.
    + right. now exists p.
    + left. now apply list_elem_of_singleton in Ha.
  - intros Ha. left. now apply list_elem_of_singleton in Ha.
Qed.

Lemma pathFromRoot_trans (r a b : Snapshot) :
  a ∈ ActivatedRouteSnapshot.pathFromRoot r ->
  b ∈ ActivatedRouteSnapshot.pathFromRoot a ->
  b ∈ ActivatedRouteSnapshot.pathFromRoot r.
Proof.
  induction r as [r Hr | r p Hr IH] using ActivatedRouteSnapshot.parent_ind;
    intros Ha Hb.
  - destruct (pathFromRoot_inv _ _ Ha) as [->|(p & Hp & _)];
      [assumption|congruence].
  - destruct (pathFromRoot_inv _ _ Ha) as [->|(p' & Hp & Ha')];
      [assumption|].
    assert (p' = p) by congruence; subst p'.
    eapply pathFromRoot_parent; eauto.
Qed.

Lemma findOutletUp_unfold (route : Snapshot) :
  findOutletUp location route
  = match findOutlet location (getRouteFullPath location route) route with
    | Some outlet => Some (outlet, route)
    | None =>
        match ActivatedRouteSnapshot.parent route with
        | Some p => findOutletUp location p
        | None => None
        end
    end.
Proof. now destruct route. Qed.

Lemma findKeyUp_unfold (keys : list string) (routeOutletKey : string)
  (route : Snapshot) :
  findKeyUp location keys routeOutletKey route
  = if includes keys (getRouteFullPath location route)
    then getRouteFullPath location route
    else
      match ActivatedRouteSnapshot.parent route with
      | Some p => findKeyUp location keys routeOutletKey p
      | None => routeOutletKey
      end.
Proof. now destruct route. Qed.

Lemma findOutletUp_Some (route found : Snapshot) (o : nat) :
  findOutletUp location route = Some (o, found) ->
  found ∈ ActivatedRouteSnapshot.pathFromRoot route
  /\ findOutlet location (getRouteFullPath location found) found = Some o.
Proof.
  induction route as [r Hr | r p Hr IH]
    using ActivatedRouteSnapshot.parent_ind;
    rewrite findOutletUp_unfold, Hr;
    destruct (findOutlet location (getRouteFullPath location r) r)
      as [o'|] eqn:Hf; try discriminate.
  - intros ?; simplify_eq. split; [apply pathFromRoot_self|exact Hf].
  - intros ?; simplify_eq. split; [apply pathFromRoot_self|exact Hf].
  - intros H. destruct (IH H) as [Hin Hfound]. split; [|exact Hfound].
    eapply pathFromRoot_parent; eauto.
Qed.

Lemma findOutletUp_None (route : Snapshot) :
  findOutletUp location route = None <->
  forall r, r ∈ ActivatedRouteSnapshot.pathFromRoot route ->
            findOutlet location (getRouteFullPath location r) r = None.
Proof.
  induction route as [r Hr | r p Hr IH]
    using ActivatedRouteSnapshot.parent_ind;
    rewrite findOutletUp_unfold, Hr;
    destruct (findOutlet location (getRouteFullPath location r) r)
      as [o'|] eqn:Hf.
  - split; [discriminate|]. intros H.
    rewrite (H r (pathFromRoot_self r)) in Hf. discriminate.
  - split; [|reflexivity]. intros _ r' Hr'.
    destruct (pathFromRoot_inv _ _ Hr') as [->|(p & Hp & _)];
      [assumption|congruence].
  - split; [discriminate|]. intros H.
    rewrite (H r (pathFromRoot_self r)) in Hf. discriminate.
  - rewrite IH. split.
    + intros H r' Hr'.
      destruct (pathFromRoot_inv _ _ Hr') as [->|(p' & Hp & Hin)];
        [assumption|].
      assert (p' = p) by congruence; subst p'. now apply H.
    + intros H r' Hr'. apply H. eapply pathFromRoot_parent; eauto.
Qed.

Lemma findKeyUp_spec (keys : list string) (routeOutletKey : string)
  (route : Snapshot) :
  (includes keys (findKeyUp location keys routeOutletKey route) = true
   /\ exists r, r ∈ ActivatedRouteSnapshot.pathFromRoot route
                /\ findKeyUp location keys routeOutletKey route
                   = getRouteFullPath location r)
  \/ findKeyUp location keys routeOutletKey route = routeOutletKey.
Proof.
  induction route as [r Hr | r p Hr IH]
    using ActivatedRouteSnapshot.parent_ind;
    rewrite findKeyUp_unfold, Hr;
    destruct (includes keys (getRouteFullPath location r)) eqn:Hinc.
  - left. split; [assumption|]. exists r. split; [apply pathFromRoot_self|].
    reflexivity.
  - now right.
  - left. split; [assumption|]. exists r. split; [apply pathFromRoot_self|].
    reflexivity.
  - destruct IH as [[Hin (r' & Hr' & Hk)]|Hk]; [left|now right].
    split; [assumption|]. exists r'. split; [|assumption].
    eapply pathFromRoot_parent; eauto.
Qed.

(** X8. [findValidOutletAndKey] finds no outlet exactly when
    [findOutlet] answers for no route from the target up to the root; an
    outlet it returns is one [findOutlet] gave for such a route.  The key
    it returns is always the full path of the target or of one of its
    ancestors: the full path of the target itself when no outlet is
    found, and otherwise either one of the keys of the outlet or, as a
    fallback, again the full path of the target. *)
Theorem findValidOutletAndKey_spec (s : State) (targetRoute : Snapshot) :
  let outlet := fst (findValidOutletAndKey location s targetRoute) in
  let outletKey := snd (findValidOutletAndKey location s targetRoute) in
  (outlet = None <->
   forall r, r ∈ ActivatedRouteSnapshot.pathFromRoot targetRoute ->
             findOutlet location (getRouteFullPath location r) r = None)
  /\ (outlet = None -> outletKey = getRouteFullPath location targetRoute)
  /\ (forall o,
        outlet = Some o ->
        (exists r, r ∈ ActivatedRouteSnapshot.pathFromRoot targetRoute
                   /\ findOutlet location (getRouteFullPath location r) r
                      = Some o)
        /\ (includes (Outlet.outletKeys (outlets s o)) outletKey = true
            \/ outletKey = getRouteFullPath location targetRoute))
  /\ (exists r, r ∈ ActivatedRouteSnapshot.pathFromRoot targetRoute
                /\ outletKey = getRouteFullPath location r).
Proof.
  intros outlet outletKey; subst outlet outletKey.
  unfold findValidOutletAndKey.
  destruct (findOutletUp location targetRoute) as [[o found]|] eqn:Hup; cbn.
  - apply findOutletUp_Some in Hup as Hfound. destruct Hfound as [Hin Hf].
    pose proof (findKeyUp_spec (Outlet.outletKeys (outlets s o))
                  (getRouteFullPath location targetRoute) found) as Hkey.
    split; [|split; [|split]].
    + split; [discriminate|]. intros H. rewrite (H found Hin) in Hf.
      discriminate.
    + discriminate.
    + intros o' [= <-]. split; [now exists found|].
      destruct Hkey as [[Hinc _]|Hk]; [now left|now right].
    + destruct Hkey as [[_ (r & Hr & Hk)]|Hk].
      * exists r. split; [|assumption]. eapply pathFromRoot_trans; eauto.
      * exists targetRoute. split; [apply pathFromRoot_self|assumption].
  - split; [|split; [|split]].
    + split; [intros _|reflexivity]. now apply findOutletUp_None.
    + reflexivity.
    + discriminate.
    + exists targetRoute. split; [apply pathFromRoot_self|reflexivity].
Qed.

(** Writing the [shouldDetach] flag of an outlet does not move the
    resolution of outlets and keys. *)
Lemma findValidOutletAndKey_flag (s : State) (o : nat) (v : JSVal)
  (route : Snapshot) :
  findValidOutletAndKey location
    (setOutlets (updateOutlet o (Outlet.setShouldDetach v) (outlets s)) s)
    route
  = findValidOutletAndKey location s route.
Proof.
  unfold findValidOutletAndKey.
  destruct (findOutletUp location route) as [[o' found]|]; [|reflexivity].
  cbn. unfold updateOutlet. now destruct (Nat.eqb o' o).
Qed.

Lemma updateOutlet_other (o r : nat) (f : Outlet.t -> Outlet.t)
  (st : OutletStore) : r <> o -> updateOutlet o f st r = st r.
Proof.
  intros Hne. unfold updateOutlet.
  now destruct (Nat.eqb_spec r o) as [Heq|_]; [destruct Hne|].
Qed.

Lemma getMark_marksAreTrue (m : Marks) (a : Snapshot) :
  marksAreTrue m -> getMark m a = JSUndefined \/ getMark m a = JSBool true.
Proof.
  intros Hm. unfold getMark.
  destruct (m !! ActivatedRouteSnapshot.oid a) as [v|] eqn:Hv; [|now left].
  right. exact (map_Forall_lookup_1 _ _ _ _ Hm Hv).
Qed.

Lemma isPageActivatedFrom_unfold (m : Marks) (tmp : Snapshot) :
  isPageActivatedFrom m tmp
  = if truthy (getMark m tmp) then getMark m tmp
    else
      match ActivatedRouteSnapshot.parent tmp with
      | Some p => isPageActivatedFrom m p
      | None => getMark m tmp
      end.
Proof. now destruct tmp. Qed.

Lemma isPageActivatedFrom_true (m : Marks) (route a : Snapshot) :
  marksAreTrue m ->
  a ∈ ActivatedRouteSnapshot.pathFromRoot route ->
  getMark m a = JSBool true ->
  isPageActivatedFrom m route = JSBool true.
Proof.
  intros Hm.
  induction route as [r Hr | r p Hr IH]
    using ActivatedRouteSnapshot.parent_ind;
    intros Ha Hmark; rewrite isPageActivatedFrom_unfold, Hr;
    destruct (getMark_marksAreTrue m r Hm) as [Hu|Ht];
    rewrite ?Hu, ?Ht; cbn; try reflexivity.
  - destruct (pathFromRoot_inv _ _ Ha) as [->|(p & Hp & _)];
      [|congruence].
    rewrite Hu in Hmark; discriminate.
  - destruct (pathFromRoot_inv _ _ Ha) as [->|(p' & Hp & Hin)].
    + rewrite Hu in Hmark; discriminate.
    + assert (p' = p) by congruence; subst p'. now apply IH.
Qed.

(** X9. On a state whose markers are all [true], [shouldDetach] returns
    [true] exactly when a valid outlet is found, that outlet is not in a
    page back navigation, the route or one of its ancestors carries the
    marker and the parent of the outlet, if any, has a truthy
    [shouldDetach] flag. *)
Theorem shouldDetach_true_iff (s : State) (route : Snapshot) :
  let top := findTop route in
  let outlet := fst (findValidOutletAndKey location s top) in
  marksAreTrue (marks s) ->
  (fst (shouldDetach findTop location s route) = JSBool true <->
   exists o,
     outlet = Some o
     /\ Outlet.isPageNavigationBack (outlets s o) = false
     /\ (exists a, a ∈ ActivatedRouteSnapshot.pathFromRoot top
                   /\ getMark (marks s) a = JSBool true)
     /\ (forall p, Outlet.parent (outlets s o) = Some p ->
                   truthy (Outlet.shouldDetach (outlets s p)) = true)).
Proof.
  intros top outlet Hm; subst top outlet.
  unfold shouldDetach.
  destruct (findValidOutletAndKey location s (findTop route))
    as [[o|] outletKey]; cbn.
  - unfold js_and; cbn. split.
    + intros Hres. exists o. split; [reflexivity|].
      destruct (Outlet.parent (outlets s o)) as [p|] eqn:Hpar.
      * destruct (truthy (Outlet.shouldDetach (outlets s p))) eqn:Hp;
          cbn in Hres; [|discriminate].
        destruct (Outlet.isPageNavigationBack (outlets s o));
          cbn in Hres; [discriminate|].
        split; [reflexivity|]. split.
        -- destruct (isPageActivatedFrom_truthy (marks s) (findTop route))
             as (a & Ha & Hma); [now rewrite Hres|].
           exists a. split; [assumption|congruence].
        -- intros p' ?; now simplify_eq.
      * destruct (Outlet.isPageNavigationBack (outlets s o));
          cbn in Hres; [discriminate|].
        split; [reflexivity|]. split; [|discriminate].
        destruct (isPageActivatedFrom_truthy (marks s) (findTop route))
          as (a & Ha & Hma); [now rewrite Hres|].
        exists a. split; [assumption|congruence].
    + intros (o' & Ho & Hback & (a & Ha & Hmark) & Hpar). simplify_eq.
      rewrite Hback; cbn.
      rewrite (isPageActivatedFrom_true _ _ a Hm Ha Hmark).
      destruct (Outlet.parent (outlets s o')) as [p|]; [|reflexivity].
      now rewrite (Hpar p eq_refl).
  - unfold js_and; cbn. split; [discriminate|].
    intros (o & Ho & _); discriminate.
Qed.

(** X10. [shouldReuseRoute] keeps all markers [true], whatever it
    returns, and the marker it copies does what the comment in the
    source says it is needed for: when the current snapshot carries the
    marker and has the same [routeConfig], afterwards [shouldDetach]
    answers [true] for every route whose top activated route is the
    future snapshot or below it, as soon as its outlet is found, is not
    in back navigation and has no parent with a falsy flag. *)
Theorem shouldReuseRoute_then_shouldDetach
  (s : State) (future curr route : Snapshot) (o : nat) :
  let s1 := snd (shouldReuseRoute s future curr) in
  marksAreTrue (marks s) ->
  marksAreTrue (marks s1)
  /\ (ActivatedRouteSnapshot.routeConfig future
      = ActivatedRouteSnapshot.routeConfig curr ->
      getMark (marks s) curr = JSBool true ->
      future ∈ ActivatedRouteSnapshot.pathFromRoot (findTop route) ->
      fst (findValidOutletAndKey location s (findTop route)) = Some o ->
      Outlet.isPageNavigationBack (outlets s o) = false ->
      (forall p, Outlet.parent (outlets s o) = Some p ->
                 truthy (Outlet.shouldDetach (outlets s p)) = true) ->
      fst (shouldDetach findTop location s1 route) = JSBool true).
Proof.
  intros s1 Hm; subst s1. split.
  - unfold shouldReuseRoute.
    destruct (bool_decide _); cbn; [|assumption].
    destruct (getMark_marksAreTrue (marks s) curr Hm) as [Hu|Ht];
      rewrite ?Hu, ?Ht; cbn; [assumption|].
    now apply map_Forall_insert_2.
  - intros Hcfg Hmark Hin Ho Hback Hpar.
    unfold shouldReuseRoute.
    rewrite bool_decide_eq_true_2 by assumption. rewrite Hmark; cbn.
    assert (Hm1 : marksAreTrue (setMark future (JSBool true) (marks s)))
      by (now apply map_Forall_insert_2).
    unfold shouldDetach.
    rewrite (findValidOutletAndKey_outlets location _ s) by reflexivity.
    destruct (findValidOutletAndKey location s (findTop route))
      as [outlet outletKey]; cbn in *. subst outlet.
    unfold js_and; cbn. rewrite Hback; cbn.
    rewrite (isPageActivatedFrom_true _ _ future Hm1 Hin)
      by (unfold getMark, setMark; now rewrite lookup_insert_eq).
    destruct (Outlet.parent (outlets s o)) as [p|]; [|reflexivity].
    now rewrite (Hpar p eq_refl).
Qed.

(** X11. [shouldDetach] and [shouldAttach] write nothing but the
    [shouldDetach] flag of the outlet they resolve: the caches, the
    markers, every other outlet and every other field of that outlet are
    as before; and when no outlet is found the state is untouched and
    [shouldDetach] returns [null]. *)
Theorem shouldDetach_shouldAttach_frame (s : State) (route : Snapshot) :
  let outlet := fst (findValidOutletAndKey location s (findTop route)) in
  let sd := snd (shouldDetach findTop location s route) in
  let sa := snd (shouldAttach findTop location s route) in
  (cacheByOutlet sd = cacheByOutlet s /\ marks sd = marks s
   /\ destroyed sd = destroyed s
   /\ cacheByOutlet sa = cacheByOutlet s /\ marks sa = marks s
   /\ destroyed sa = destroyed s)
  /\ (forall r, outlet <> Some r ->
                outlets sd r = outlets s r /\ outlets sa r = outlets s r)
  /\ (forall r s',
        s' = sd \/ s' = sa ->
        Outlet.isPageNavigationBack (outlets s' r)
        = Outlet.isPageNavigationBack (outlets s r)
        /\ Outlet.outletKeys (outlets s' r) = Outlet.outletKeys (outlets s r)
        /\ Outlet.parent (outlets s' r) = Outlet.parent (outlets s r)
        /\ Outlet.frames (outlets s' r) = Outlet.frames (outlets s r))
  /\ (outlet = None ->
      shouldDetach findTop location s route = (JSNull, s) /\ sa = s).
Proof.
  intros outlet sd sa; subst outlet sd sa.
  unfold shouldDetach, shouldAttach.
  destruct (findValidOutletAndKey location s (findTop route))
    as [[o|] outletKey]; cbn;
    destruct (cacheByOutlet s !! outletKey) as [cache|]; cbn;
    (split; [now repeat split|]);
    (split; [intros r Hr; unfold updateOutlet;
             try (destruct (Nat.eqb_spec r o) as [->|_];
                  [now destruct Hr|]); now split|]);
    (split; [intros r s' [-> | ->]; cbn; unfold updateOutlet;
             try (destruct (Nat.eqb r o)); now repeat split|]);
    try discriminate; now intros _.
Qed.

(** X12. The flag is shared between outlets: once [shouldDetach] has
    returned something falsy for a route whose outlet is [p], it returns
    [false] for every route whose outlet is another outlet with parent
    [p], whatever markers that route carries. *)
Theorem shouldDetach_parent_blocks_children
  (s : State) (routeP routeC : Snapshot) (p c : nat) :
  let s1 := snd (shouldDetach findTop location s routeP) in
  fst (findValidOutletAndKey location s (findTop routeP)) = Some p ->
  truthy (fst (shouldDetach findTop location s routeP)) = false ->
  fst (findValidOutletAndKey location s (findTop routeC)) = Some c ->
  Outlet.parent (outlets s c) = Some p ->
  c <> p ->
  fst (shouldDetach findTop location s1 routeC) = JSBool false.
Proof.
  intros s1 Hp Hres Hc Hpar Hne; subst s1.
  assert (Hs1 : exists v,
             truthy v = false
             /\ snd (shouldDetach findTop location s routeP)
                = setOutlets (updateOutlet p (Outlet.setShouldDetach v)
                                           (outlets s)) s).
  { revert Hres. unfold shouldDetach.
    destruct (findValidOutletAndKey location s (findTop routeP))
      as [outlet outletKey]; cbn in *. subst outlet. cbn.
    intros Hres. eexists; split; [exact Hres|reflexivity]. }
  destruct Hs1 as (v & Hv & ->).
  unfold shouldDetach at 1.
  rewrite findValidOutletAndKey_flag.
  destruct (findValidOutletAndKey location s (findTop routeC))
    as [outlet outletKey]; cbn in *. subst outlet. cbn.
  rewrite !(updateOutlet_other p c) by assumption.
  rewrite Hpar, updateOutlet_same; cbn.
  now rewrite Hv.
Qed.

Lemma clear_all (c : list CacheItem) (refs log : list ComponentRef) :
  map (fun i => componentRef (CacheItem.state i)) c = map Some refs ->
  DetachedStateCache.clear (DetachedStateCache.Make c) log
  = (Normal tt, DetachedStateCache.new, log ++ rev refs).
Proof.
  intros Hrefs. change c with ([] ++ c).
  rewrite (clear_above [] c refs) by assumption. apply clear_nil.
Qed.

(** X13. [clearCache] on a cache whose handles all carry a component
    ref destroys them all, top first, and leaves the cache registered
    and empty.  For a route that resolves to that key, a back navigation
    then finds nothing to reattach ([retrieve] returns [null],
    [shouldAttach] answers [false]) and a [store] with [null] throws a
    [TypeError]. *)
Theorem clearCache_then_back (s : State) (outletKey : string)
  (cache : DetachedStateCache.t) (refs : list ComponentRef) :
  let s1 := snd (clearCache s outletKey) in
  cacheByOutlet s !! outletKey = Some cache ->
  map (fun i => componentRef (CacheItem.state i))
      (DetachedStateCache.cache cache) = map Some refs ->
  fst (clearCache s outletKey) = Normal tt
  /\ cacheByOutlet s1 = <[outletKey := DetachedStateCache.new]> (cacheByOutlet s)
  /\ destroyed s1 = destroyed s ++ rev refs
  /\ (forall route,
        snd (findValidOutletAndKey location s (findTop route)) = outletKey ->
        fst (retrieve findTop location s1 route) = None
        /\ fst (shouldAttach findTop location s1 route) = false
        /\ fst (store findTop location s1 route None) = Throw TypeError).
Proof.
  intros s1 Hc Hrefs; subst s1. unfold clearCache. rewrite Hc.
  destruct cache as [c]; cbn in Hrefs.
  rewrite (clear_all c refs) by assumption. cbn.
  repeat split; intros;
    unfold retrieve, shouldAttach, store;
    rewrite (findValidOutletAndKey_outlets location _ s) by reflexivity;
    destruct (findValidOutletAndKey location s (findTop route))
      as [outlet k]; cbn in *; subst k;
    rewrite lookup_insert_eq; cbn; rewrite peek_last; cbn.
  - reflexivity.
  - rewrite andb_false_r. now destruct outlet.
  - reflexivity.
Qed.

End ResolutionFacts.

(** * Further properties of the page router outlet *)

Section OutletMore.

Variable findTop : Snapshot -> Snapshot.
Variable locationStrategy : NSLocationStrategy.

#[local] Abbreviation markOne :=
  (PageRouterOutlet.markOne findTop locationStrategy).
#[local] Abbreviation markLoop :=
  (PageRouterOutlet.markLoop findTop locationStrategy).
#[local] Abbreviation hasFrames :=
  (hasOutletWithFrames findTop locationStrategy).

Lemma forestRoutes_cons (route : Snapshot)
  (children queue : list SnapshotTree) :
  forestRoutes (SnapshotNode route children :: queue)
  = route :: forestRoutes children ++ forestRoutes queue.
Proof. reflexivity. Qed.

Lemma forestRoutes_app (q1 q2 : list SnapshotTree) :
  forestRoutes (q1 ++ q2) = forestRoutes q1 ++ forestRoutes q2.
Proof. unfold forestRoutes. now rewrite map_app, concat_app. Qed.

Lemma markOne_eq (outlets : OutletStore) (currentRoute : Snapshot)
  (m : Marks) :
  markOne outlets currentRoute m
  = if hasFrames outlets currentRoute
    then setMark (findTop currentRoute) (JSBool true) m
    else m.
Proof.
  unfold PageRouterOutlet.markOne, hasOutletWithFrames.
  destruct (findOutlet locationStrategy _ _) as [o|]; [|reflexivity].
  now destruct (Outlet.frames (outlets o)).
Qed.

(** The loop over the queue sets the marker of the top activated route
    of every snapshot it visits that has an outlet with frames, and
    leaves every other marker alone. *)
Lemma markLoop_spec (outlets : OutletStore) (queue : list SnapshotTree)
  (m : Marks) :
  (forall r,
     r ∈ forestRoutes queue ->
     hasFrames outlets r = true ->
     markLoop outlets queue m !! ActivatedRouteSnapshot.oid (findTop r)
     = Some (JSBool true))
  /\ (forall id,
        (forall r,
           r ∈ forestRoutes queue ->
           hasFrames outlets r = true ->
           ActivatedRouteSnapshot.oid (findTop r) <> id) ->
        markLoop outlets queue m !! id = m !! id).
Proof.
  funelim (markLoop outlets queue m).
  - split.
    + intros r Hr. now apply elem_of_nil in Hr.
    + reflexivity.
  - match goal with
    | IH : _ /\ _ |- _ => destruct IH as [IHset IHkeep]
    end.
    assert (Hsplit : forall r,
               r ∈ forestRoutes (SnapshotNode currentRoute children :: queue)
               <-> r = currentRoute \/ r ∈ forestRoutes (queue ++ children)).
    { intros r. rewrite forestRoutes_cons, forestRoutes_app.
      rewrite elem_of_cons, !elem_of_app. tauto. }
    assert (Hkeep : forall id,
               (forall r,
                  r ∈ forestRoutes
                        (SnapshotNode currentRoute children :: queue) ->
                  hasFrames outlets r = true ->
                  ActivatedRouteSnapshot.oid (findTop r) <> id) ->
               markLoop outlets (queue ++ children)
                        (markOne outlets currentRoute m) !! id
               = m !! id).
    { intros id Hid. rewrite IHkeep.
      - rewrite markOne_eq.
        destruct (hasFrames outlets currentRoute) eqn:Hcur; [|reflexivity].
        unfold setMark. rewrite lookup_insert_ne; [reflexivity|].
        apply Hid; [|assumption]. apply Hsplit; now left.
      - intros r Hr. apply Hid. apply Hsplit; now right. }
    split; [|exact Hkeep].
    intros r Hr Hframes. apply Hsplit in Hr.
    set (id := ActivatedRouteSnapshot.oid (findTop r)).
    destruct (decide (Exists
                (fun r' =>
                   hasFrames outlets r' = true
                   /\ ActivatedRouteSnapshot.oid (findTop r') = id)
                (forestRoutes (queue ++ children)))) as [Hex|Hnex].
    + apply Exists_exists in Hex as (r' & Hin & Hf' & Hid').
      rewrite <- Hid'. apply IHset; [|assumption].
      assumption.
    + rewrite IHkeep.
      * destruct Hr as [->|Hr].
        -- rewrite markOne_eq, Hframes. unfold setMark.
           now rewrite lookup_insert_eq.
        -- destruct Hnex. apply Exists_exists. exists r.
           split; [assumption|]. now split.
      * intros r' Hin Hf' Hid'. destruct Hnex. apply Exists_exists.
        exists r'. split; [assumption|]. now split.
Qed.

Lemma markLoop_marksAreTrue (outlets : OutletStore)
  (queue : list SnapshotTree) (m : Marks) :
  marksAreTrue m -> marksAreTrue (markLoop outlets queue m).
Proof.
  funelim (markLoop outlets queue m); intros Hm; [assumption|].
  match goal with IH : _ -> _ |- _ => apply IH end.
  rewrite markOne_eq. destruct (hasFrames _ _); [|assumption].
  now apply map_Forall_insert_2.
Qed.

(** X14. [markActivatedRoute] visits the whole tree under the snapshot
    of the activated route.  It sets the marker of the top activated
    route of every snapshot there that has an outlet with at least one
    frame, so that the loop of [shouldDetach] finds a [true] marker when
    it starts from that route; it changes no other marker, writes no
    value but [true], and touches neither the outlets nor the
    collaborators of the outlet. *)
Theorem markActivatedRoute_spec (activatedRoute : ActivatedRoute)
  (w : PageRouterOutlet.World) :
  let w' :=
    PageRouterOutlet.markActivatedRoute findTop locationStrategy
                                        activatedRoute w in
  PageRouterOutlet.outlets w' = PageRouterOutlet.outlets w
  /\ PageRouterOutlet.trace w' = PageRouterOutlet.trace w
  /\ (forall r,
        r ∈ treeRoutes (snapshot activatedRoute) ->
        hasFrames (PageRouterOutlet.outlets w) r = true ->
        getMark (PageRouterOutlet.marks w') (findTop r) = JSBool true
        /\ NSRouteReuseStrategy.isPageActivatedFrom
             (PageRouterOutlet.marks w') (findTop r)
           = JSBool true)
  /\ (forall id,
        (forall r,
           r ∈ treeRoutes (snapshot activatedRoute) ->
           hasFrames (PageRouterOutlet.outlets w) r = true ->
           ActivatedRouteSnapshot.oid (findTop r) <> id) ->
        PageRouterOutlet.marks w' !! id = PageRouterOutlet.marks w !! id)
  /\ (marksAreTrue (PageRouterOutlet.marks w) ->
      marksAreTrue (PageRouterOutlet.marks w')).
Proof.
  intros w'; subst w'. unfold PageRouterOutlet.markActivatedRoute; cbn.
  destruct (markLoop_spec (PageRouterOutlet.outlets w)
              [snapshot activatedRoute] (PageRouterOutlet.marks w))
    as [Hset Hkeep].
  assert (Hroutes : forestRoutes [snapshot activatedRoute]
                    = treeRoutes (snapshot activatedRoute))
    by (unfold forestRoutes; cbn; apply app_nil_r).
  rewrite Hroutes in Hset, Hkeep.
  split; [reflexivity|]. split; [reflexivity|].
  split; [|split; [exact Hkeep|apply markLoop_marksAreTrue]].
  intros r Hr Hf.
  assert (Hmark : getMark (markLoop (PageRouterOutlet.outlets w)
                             [snapshot activatedRoute]
                             (PageRouterOutlet.marks w)) (findTop r)
                  = JSBool true)
    by (unfold getMark; now rewrite (Hset r Hr Hf)).
  split; [exact Hmark|].
  rewrite isPageActivatedFrom_unfold, Hmark. reflexivity.
Qed.

(** X15. A second [detach] in a row is harmless: it returns [undefined],
    emits nothing and changes nothing; the first one, on an activated
    outlet, detaches the host view and emits one detach event. *)
Theorem detach_twice (this : PageRouterOutlet.t)
  (w : PageRouterOutlet.World) :
  let this' := snd (fst (PageRouterOutlet.detach this w)) in
  let w' := snd (PageRouterOutlet.detach this w) in
  PageRouterOutlet.detach this' w' = (None, this', w')
  /\ PageRouterOutlet.isActivated this' = false
  /\ (forall component,
        PageRouterOutlet.activated this = Some component ->
        PageRouterOutlet.trace w'
        = PageRouterOutlet.trace w
          ++ [HostViewDetach component; Emit detachEvents component]).
Proof.
  destruct this as [[c|] route nm ctx fr]; cbn.
  - repeat split. intros component [= <-].
    now rewrite <- app_assoc.
  - repeat split. discriminate.
Qed.

End OutletMore.

(** * The destructible injector *)

Section InjectorFacts.

Import DestructibleInjector.

Lemma setAdd_spec (ref : option nat) (set : list (option nat)) :
  NoDup set ->
  NoDup (setAdd ref set)
  /\ forall r, r ∈ setAdd ref set <-> r ∈ set \/ r = ref.
Proof.
  intros Hnd. unfold setAdd. case_bool_decide as Hin.
  - split; [assumption|]. intros r. split; [now left|].
    now intros [Hr| ->].
  - split.
    + apply NoDup_app. split; [assumption|]. split.
      * intros x Hx Hx'. apply list_elem_of_singleton in Hx'. now subst x.
      * apply NoDup_singleton.
    + intros r. rewrite elem_of_app, list_elem_of_singleton. tauto.
Qed.

Lemma get_fields (token : nat) (notFoundValue flags : option nat) (this : t) :
  destructableProviders (snd (get token notFoundValue flags this))
  = destructableProviders this
  /\ parent (snd (get token notFoundValue flags this)) = parent this.
Proof. unfold get. now case_bool_decide. Qed.

Lemma getAll_cons (token : nat) (notFoundValue flags : option nat)
  (requests : list (nat * option nat * option nat)) (this : t) :
  getAll ((token, notFoundValue, flags) :: requests) this
  = getAll requests (snd (get token notFoundValue flags this)).
Proof. reflexivity. Qed.

Lemma getAll_fields (requests : list (nat * option nat * option nat))
  (this : t) :
  destructableProviders (getAll requests this) = destructableProviders this
  /\ parent (getAll requests this) = parent this.
Proof.
  revert this. induction requests as [|[[token nf] fl] requests IH];
    intros this; [now split|].
  rewrite getAll_cons.
  destruct (IH (snd (get token nf fl this))) as [-> ->].
  apply get_fields.
Qed.

(** X16. [get] answers what the parent injector answers, and after any
    run of [get] calls on an injector whose [refs] set has no duplicates
    the set still has none and holds, besides what it held, exactly the
    answers given for tokens in [destructableProviders]: with an empty
    provider set nothing is ever tracked. *)
Theorem getAll_tracks (requests : list (nat * option nat * option nat))
  (this : t) :
  NoDup (refs this) ->
  NoDup (refs (getAll requests this))
  /\ (forall r,
        r ∈ refs (getAll requests this) <->
        r ∈ refs this
        \/ exists token notFoundValue flags,
             (token, notFoundValue, flags) ∈ requests
             /\ token ∈ destructableProviders this
             /\ r = parent this token notFoundValue flags)
  /\ (forall token notFoundValue flags,
        fst (get token notFoundValue flags this)
        = parent this token notFoundValue flags)
  /\ (destructableProviders this = ∅ ->
      refs (getAll requests this) = refs this).
Proof.
  intros Hnd.
  assert (Hmain : NoDup (refs (getAll requests this))
            /\ forall r,
                 r ∈ refs (getAll requests this) <->
                 r ∈ refs this
                 \/ exists token notFoundValue flags,
                      (token, notFoundValue, flags) ∈ requests
                      /\ token ∈ destructableProviders this
                      /\ r = parent this token notFoundValue flags).
  { revert this Hnd.
    induction requests as [|[[token nf] fl] requests IH]; intros this Hnd.
    - split; [assumption|]. intros r. split; [now left|].
      intros [Hr|(t' & n' & f' & Hin & _)]; [assumption|].
      now apply elem_of_nil in Hin.
    - rewrite getAll_cons.
      destruct (get_fields token nf fl this) as [Hprov Hpar].
      assert (Hstep : NoDup (refs (snd (get token nf fl this)))
                /\ forall r,
                     r ∈ refs (snd (get token nf fl this)) <->
                     r ∈ refs this
                     \/ (token ∈ destructableProviders this
                         /\ r = parent this token nf fl)).
      { unfold get. case_bool_decide as Htok; cbn.
        - destruct (setAdd_spec (parent this token nf fl) (refs this) Hnd)
            as [Hnd' Hmem].
          split; [assumption|]. intros r. rewrite Hmem. tauto.
        - split; [assumption|]. intros r. tauto. }
      destruct Hstep as [Hnd' Hmem].
      destruct (IH _ Hnd') as [Hnd'' Hmem'']. split; [assumption|].
      intros r. rewrite Hmem'', Hmem, Hprov, Hpar. split.
      + intros [[Hr|[Htok ->]]|(t' & n' & f' & Hin & Ht' & ->)].
        * now left.
        * right. exists token, nf, fl. split; [|now split].
          apply elem_of_cons; now left.
        * right. exists t', n', f'. split; [|now split].
          apply elem_of_cons; now right.
      + intros [Hr|(t' & n' & f' & Hin & Ht' & ->)]; [now left; left|].
        apply elem_of_cons in Hin as [Heq|Hin].
        * simplify_eq. left; right. now split.
        * right. exists t', n', f'. now repeat split. }
  destruct Hmain as [Hnd' Hmem]. split; [assumption|]. split; [assumption|].
  split.
  - intros token nf fl. unfold get. now case_bool_decide.
  - intros Hempty. clear Hnd Hnd' Hmem. revert this Hempty.
    induction requests as [|[[token nf] fl] requests IH]; intros this Hempty;
      [reflexivity|].
    rewrite getAll_cons.
    assert (Hget : snd (get token nf fl this) = this).
    { unfold get. rewrite Hempty.
      rewrite bool_decide_eq_false_2 by apply not_elem_of_empty.
      reflexivity. }
    rewrite Hget. now apply IH.
Qed.

Lemma destroyEach_live (hasNgOnDestroy : nat -> bool) (live : list nat)
  (rest : list (option nat)) (calls : list nat) :
  destroyEach hasNgOnDestroy (map Some live ++ rest) calls
  = destroyEach hasNgOnDestroy rest
      (calls ++ filter (fun r => hasNgOnDestroy r = true) live).
Proof.
  revert calls. induction live as [|r live IH]; intros calls.
  - cbn. now rewrite app_nil_r.
  - cbn [map app destroyEach]. rewrite IH, filter_cons.
    destruct (hasNgOnDestroy r) eqn:Hr.
    + rewrite decide_True by reflexivity. now rewrite <- app_assoc.
    + rewrite decide_False by discriminate. reflexivity.
Qed.

(** X17. [destroy] on an injector whose tracked values are all objects
    calls [ngOnDestroy] on those that have one, in the order they were
    first tracked and (the set having no duplicates) once each, and
    empties the set.  When a tracked value is [null] it throws a
    [TypeError] there: the values tracked earlier have had their
    [ngOnDestroy] called, and the set is not emptied. *)
Theorem destroy_spec (hasNgOnDestroy : nat -> bool) (this : t)
  (calls : list nat) :
  (forall live,
     refs this = map Some live ->
     destroy hasNgOnDestroy this calls
     = (Normal tt,
        Make [] (destructableProviders this) (parent this),
        calls ++ filter (fun r => hasNgOnDestroy r = true) live)
     /\ (NoDup (refs this) ->
         NoDup (filter (fun r => hasNgOnDestroy r = true) live)))
  /\ (forall live rest,
        refs this = map Some live ++ None :: rest ->
        destroy hasNgOnDestroy this calls
        = (Throw TypeError, this,
           calls ++ filter (fun r => hasNgOnDestroy r = true) live)).
Proof.
  unfold destroy. split.
  - intros live Hrefs. rewrite Hrefs.
    rewrite <- (app_nil_r (map Some live)), destroyEach_live. cbn.
    split; [reflexivity|].
    intros Hnd. apply NoDup_filter.
    rewrite app_nil_r in Hnd.
    eapply (NoDup_fmap (@Some nat)). exact Hnd.
  - intros live rest Hrefs. rewrite Hrefs, destroyEach_live. reflexivity.
Qed.

End InjectorFacts.

(** * Further properties of the action bar *)

Section ActionBarMore.

Lemma indexOf_absent (l : list NgView) (x : NgView) :
  x ∉ l -> indexOf l x = (-1)%Z.
Proof.
  induction l as [|y l IH]; simpl; intros Hx; [reflexivity|].
  rewrite not_elem_of_cons in Hx. destruct Hx as [Hxy Hx].
  rewrite bool_decide_eq_false_2 by congruence.
  now rewrite (IH Hx).
Qed.

Lemma spliceInsert_minus_one (l : list NgView) (z item : NgView) :
  spliceInsert (l ++ [z]) (-1) item = l ++ [item; z].
Proof.
  unfold spliceInsert. rewrite length_app; cbn [length].
  replace (Z.max (Z.of_nat (length l + 1) + -1) 0) with (Z.of_nat (length l))
    by lia.
  cbn. rewrite Nat2Z.id.
  now rewrite take_app_length, drop_app_length.
Qed.

(** X18. [insertChild] of an action item that is not yet in the
    collection (which holds no item twice) returns normally whatever
    [next] is: afterwards the collection holds the item exactly once and
    the items that were there in their order, the navigation button and
    the title view are untouched and the item's [parentNode] is the
    action bar.  For an item that is already in the collection it
    throws the toolkit's 'View already has a parent', and the item's
    [parentNode] is not written. *)
Theorem insertChild_actionItem_once
  (s : ActionBarState) (child : NgView) (next : option NgView) :
  let s' := snd (actionBarMeta.insertChild s child next) in
  viewClass child = ActionItemClass ->
  (NoDup (actionItems (bar s)) ->
   child ∉ actionItems (bar s) ->
   fst (actionBarMeta.insertChild s child next) = Normal tt
   /\ (exists l1 l2,
         actionItems (bar s) = l1 ++ l2
         /\ actionItems (bar s') = l1 ++ child :: l2)
   /\ NoDup (actionItems (bar s'))
   /\ navigationButton (bar s') = navigationButton (bar s)
   /\ titleView (bar s') = titleView (bar s)
   /\ barId (bar s') = barId (bar s)
   /\ parentNode s' = <[viewId child := barId (bar s)]> (parentNode s))
  /\ (child ∈ actionItems (bar s) ->
      fst (actionBarMeta.insertChild s child next)
      = Throw ViewAlreadyHasParent
      /\ parentNode s' = parentNode s).
Proof.
  intros s' Hcls; subst s'. split.
  - intros Hnd Hchild.
    rewrite (insertChild_actionItem_fresh s child next Hcls Hnd Hchild).
    cbn [fst snd bar actionItems setActionItems navigationButton titleView
         barId parentNode].
    destruct (itemsAfterInsert_split (actionItems (bar s)) child next)
      as (l1 & l2 & Hitems & Hins).
    split; [reflexivity|]. split; [now exists l1, l2|].
    split; [|now repeat split].
    rewrite Hins. apply NoDup_insert_middle. now rewrite <- Hitems.
  - intros Hchild. now apply insertChild_actionItem_present.
Qed.

Lemma insertChild_actionItem_once_witness :
  let a := {| viewId := 1; viewClass := ActionItemClass |} in
  let child := {| viewId := 3; viewClass := ActionItemClass |} in
  let s :=
    {| bar := {| barId := 0; navigationButton := None;
                 actionItems := [a]; titleView := None |};
       parentNode := ∅ |} in
  parentNode (snd (actionBarMeta.insertChild s child (Some a)))
  = <[3 := 0]> (∅ : gmap nat nat).
Proof.
  intros a child s.
  refine (proj2 (proj2 (proj2 (proj2 (proj2 (proj2
            (proj1 (insertChild_actionItem_once s child (Some a) eq_refl)
               _ _))))))).
  - apply (bool_decide_unpack _); vm_compute; exact I.
  - apply (bool_decide_unpack _); vm_compute; exact I.
Defined.

(** X19. When [next] is given but is not in the collection, an action
    item that is not yet in the collection (which holds no item twice)
    is not appended: [insertChild] returns normally and the item lands
    immediately before the last item of the collection (and alone in an
    empty collection). *)
Theorem insertChild_next_not_in_collection
  (s : ActionBarState) (child n : NgView) :
  let s' := snd (actionBarMeta.insertChild s child (Some n)) in
  viewClass child = ActionItemClass ->
  NoDup (actionItems (bar s)) ->
  child ∉ actionItems (bar s) ->
  n ∉ actionItems (bar s) ->
  fst (actionBarMeta.insertChild s child (Some n)) = Normal tt
  /\ (forall l z,
        actionItems (bar s) = l ++ [z] ->
        actionItems (bar s') = l ++ [child; z])
  /\ (actionItems (bar s) = [] -> actionItems (bar s') = [child]).
Proof.
  intros s' Hcls Hnd Hchild Hn; subst s'.
  rewrite (insertChild_actionItem_fresh s child (Some n) Hcls Hnd Hchild).
  cbn [fst snd bar actionItems setActionItems itemsAfterInsert].
  rewrite (indexOf_absent _ _ Hn). split; [reflexivity|]. split.
  - intros l z ->. apply spliceInsert_minus_one.
  - now intros ->.
Qed.

Lemma insertChild_next_not_in_collection_witness :
  let a := {| viewId := 1; viewClass := ActionItemClass |} in
  let b := {| viewId := 2; viewClass := ActionItemClass |} in
  let child := {| viewId := 3; viewClass := ActionItemClass |} in
  let comment := {| viewId := 4; viewClass := InvisibleNodeClass |} in
  let s :=
    {| bar := {| barId := 0; navigationButton := None;
                 actionItems := [a; b]; titleView := None |};
       parentNode := ∅ |} in
  actionItems (bar (snd (actionBarMeta.insertChild s child (Some comment))))
  = [a; child; b].
Proof.
  intros a b child comment s.
  refine (proj1 (proj2 (insertChild_next_not_in_collection s child comment
                          eq_refl _ _ _)) [a] b eq_refl).
  - apply (bool_decide_unpack _); vm_compute; exact I.
  - apply (bool_decide_unpack _); vm_compute; exact I.
  - apply (bool_decide_unpack _); vm_compute; exact I.
Defined.

(** X20. [removeChild] only clears a slot that holds the child being
    removed: after a navigation button (or title view) [a] has been
    replaced by another one [b], removing [a] leaves [b] in place. *)
Theorem removeChild_keeps_replacement
  (s : ActionBarState) (a b : NgView) (nextA nextB : option NgView) :
  let s2 :=
    snd (actionBarMeta.insertChild
           (snd (actionBarMeta.insertChild s a nextA)) b nextB) in
  a <> b ->
  (viewClass a = NavigationButtonClass ->
   viewClass b = NavigationButtonClass ->
   fst (actionBarMeta.insertChild s a nextA) = Normal tt
   /\ fst (actionBarMeta.insertChild
             (snd (actionBarMeta.insertChild s a nextA)) b nextB)
      = Normal tt
   /\ fst (actionBarMeta.removeChild s2 a) = Normal tt
   /\ navigationButton (bar (snd (actionBarMeta.removeChild s2 a))) = Some b)
  /\ (viewClass a = ViewClassOther ->
      viewClass b = ViewClassOther ->
      fst (actionBarMeta.insertChild s a nextA) = Normal tt
      /\ fst (actionBarMeta.insertChild
                (snd (actionBarMeta.insertChild s a nextA)) b nextB)
         = Normal tt
      /\ actionBarMeta.removeChild s2 a = (Normal tt, s2)
      /\ titleView (bar s2) = Some b).
Proof.
  destruct s as [[bid nav items title] pn].
  destruct a as [aid acls], b as [bid' bcls]; simpl. intros Hne.
  unfold actionBarMeta.insertChild, actionBarMeta.removeChild,
    isInvisibleNode, isNavigationButton, isActionItem, isView; simpl.
  split; intros -> ->; simpl.
  - rewrite bool_decide_eq_false_2 by congruence. now repeat split.
  - rewrite bool_decide_eq_false_2 by congruence. now repeat split.
Qed.

Lemma removeChild_keeps_replacement_witness :
  let a := {| viewId := 1; viewClass := NavigationButtonClass |} in
  let b := {| viewId := 2; viewClass := NavigationButtonClass |} in
  let s :=
    {| bar := {| barId := 0; navigationButton := None;
                 actionItems := []; titleView := None |};
       parentNode := ∅ |} in
  navigationButton
    (bar (snd (actionBarMeta.removeChild
                 (snd (actionBarMeta.insertChild
                         (snd (actionBarMeta.insertChild s a None)) b None))
                 a)))
  = Some b.
Proof.
  intros a b s.
  refine (proj2 (proj2 (proj2
            (proj1 (removeChild_keeps_replacement s a b None None _)
               eq_refl eq_refl)))).
  discriminate.
Defined.

(** X21. The scope of an action-bar extension: [onNavButtonDestroy]
    after [onNavButtonInit] for the same button leaves the action bar
    without a navigation button and otherwise unchanged; if another
    button was set in between, it stays; and a destroy for a [null]
    element changes nothing. *)
Theorem onNavButton_init_destroy (actionBar : NgActionBar) (a b : NgView) :
  ActionBarScope.onNavButtonDestroy
    (ActionBarScope.onNavButtonInit actionBar (Some a)) (Some a)
  = setNavigationButton None actionBar
  /\ (a <> b ->
      navigationButton
        (ActionBarScope.onNavButtonDestroy
           (ActionBarScope.onNavButtonInit
              (ActionBarScope.onNavButtonInit actionBar (Some a)) (Some b))
           (Some a))
      = Some b)
  /\ ActionBarScope.onNavButtonDestroy actionBar None = actionBar.
Proof.
  destruct actionBar as [bid nav items title].
  unfold ActionBarScope.onNavButtonDestroy, ActionBarScope.onNavButtonInit;
    cbn.
  rewrite bool_decide_eq_true_2 by reflexivity.
  split; [reflexivity|]. split; [|reflexivity].
  intros Hne. now rewrite bool_decide_eq_false_2 by congruence.
Qed.

Lemma onNavButton_init_destroy_witness :
  let a := {| viewId := 1; viewClass := NavigationButtonClass |} in
  let b := {| viewId := 2; viewClass := NavigationButtonClass |} in
  let actionBar :=
    {| barId := 0; navigationButton := None; actionItems := [];
       titleView := None |} in
  navigationButton
    (ActionBarScope.onNavButtonDestroy
       (ActionBarScope.onNavButtonInit
          (ActionBarScope.onNavButtonInit actionBar (Some a)) (Some b))
       (Some a))
  = Some b.
Proof.
  intros a b actionBar.
  refine (proj1 (proj2 (onNavButton_init_destroy actionBar a b)) _).
  discriminate.
Defined.

End ActionBarMore.

(** * Worked instances of the further properties *)

Section MoreInstances.

Import NSRouteReuseStrategy.

Lemma store_then_store_null_witness :
  snd (store (fun r => r) (Sample.location 0)
         (snd (store (fun r => r) (Sample.location 0)
                 (Sample.state true (JSBool true) ∅ ∅) Sample.home
                 (Some (Sample.handle 11))))
         Sample.home None)
  = Sample.state true (JSBool true) ∅ ∅.
Proof.
  refine (proj1 (proj2 (store_then_store_null (fun r => r)
                          (Sample.location 0)
                          (Sample.state true (JSBool true) ∅ ∅) Sample.home
                          (Sample.handle 11))) _).
  reflexivity.
Defined.

Lemma store_then_retrieve_witness :
  fst (retrieve (fun r => r) (Sample.location 0)
         (snd (store (fun r => r) (Sample.location 0)
                 (Sample.state true (JSBool true) ∅ ∅) Sample.home
                 (Some (Sample.handle 11))))
         Sample.home)
  = Some (Sample.handle 11).
Proof.
  refine (proj2 (store_then_retrieve (fun r => r) (Sample.location 0)
                   (Sample.state true (JSBool true) ∅ ∅) Sample.home
                   (Sample.handle 11) _)).
  reflexivity.
Defined.

Lemma store_null_without_items_witness :
  fst (store (fun r => r) (Sample.location 0)
         (Sample.state true (JSBool true) ∅ ∅) Sample.home None)
  = Throw TypeError.
Proof.
  refine (proj1 (proj1 (store_null_without_items (fun r => r)
                          (Sample.location 0)
                          (Sample.state true (JSBool true) ∅ ∅) Sample.home)
                   _)).
  reflexivity.
Defined.

Lemma store_keeps_caches_non_empty_witness :
  cachesNonEmpty
    (snd (store (fun r => r) (Sample.location 0)
            (Sample.state true (JSBool true) ∅ ∅) Sample.home
            (Some (Sample.handle 11)))).
Proof.
  refine (proj1 (store_keeps_caches_non_empty (fun r => r)
                   (Sample.location 0)
                   (Sample.state true (JSBool true) ∅ ∅) Sample.home
                   (Some (Sample.handle 11)) _) _).
  - apply map_Forall_empty.
  - reflexivity.
Defined.

Lemma findValidOutletAndKey_spec_witness :
  includes
    (Outlet.outletKeys
       (outlets (Sample.state true (JSBool true) ∅ ∅) 0))
    (snd (findValidOutletAndKey (Sample.location 0)
            (Sample.state true (JSBool true) ∅ ∅) Sample.home))
  = true
  \/ snd (findValidOutletAndKey (Sample.location 0)
            (Sample.state true (JSBool true) ∅ ∅) Sample.home)
     = getRouteFullPath (Sample.location 0) Sample.home.
Proof.
  refine (proj2 (proj1 (proj2 (proj2 (findValidOutletAndKey_spec
                   (Sample.location 0)
                   (Sample.state true (JSBool true) ∅ ∅) Sample.home)))
                   0 _)).
  reflexivity.
Defined.

Lemma shouldDetach_true_iff_witness :
  fst (shouldDetach (fun r => r) (Sample.location 0)
         (Sample.state false (JSBool true) ∅ {[1 := JSBool true]})
         Sample.home)
  = JSBool true.
Proof.
  refine (proj2 (shouldDetach_true_iff (fun r => r) (Sample.location 0)
                   (Sample.state false (JSBool true) ∅ {[1 := JSBool true]})
                   Sample.home _) _).
  - apply map_Forall_singleton. reflexivity.
  - exists 0. split; [reflexivity|]. split; [reflexivity|].
    split; [|discriminate].
    exists Sample.root. split; [|reflexivity].
    apply elem_of_cons; now left.
Defined.

Lemma shouldReuseRoute_then_shouldDetach_witness :
  fst (shouldDetach (fun r => r) (Sample.location 0)
         (snd (shouldReuseRoute
                 (Sample.state false (JSBool true) ∅ {[2 := JSBool true]})
                 Sample.detail Sample.home))
         Sample.detail)
  = JSBool true.
Proof.
  refine (proj2 (shouldReuseRoute_then_shouldDetach (fun r => r)
                   (Sample.location 0)
                   (Sample.state false (JSBool true) ∅ {[2 := JSBool true]})
                   Sample.detail Sample.home Sample.detail 0 _)
            _ _ _ _ _ _).
  - apply map_Forall_singleton. reflexivity.
  - reflexivity.
  - reflexivity.
  - apply elem_of_cons; right. apply elem_of_cons; now left.
  - reflexivity.
  - reflexivity.
  - discriminate.
Defined.

Lemma shouldDetach_shouldAttach_frame_witness :
  outlets (snd (shouldDetach (fun r => r) (Sample.location 0)
                  (Sample.state true (JSBool true) ∅ ∅) Sample.home)) 5
  = outlets (Sample.state true (JSBool true) ∅ ∅) 5.
Proof.
  refine (proj1 (proj1 (proj2 (shouldDetach_shouldAttach_frame (fun r => r)
                   (Sample.location 0)
                   (Sample.state true (JSBool true) ∅ ∅) Sample.home))
                   5 _)).
  discriminate.
Defined.

Lemma shouldDetach_parent_blocks_children_witness :
  let location :=
    {| getRouteFullPath := fun _ => "home";
       findOutlet := fun _ r =>
         if Nat.eqb (ActivatedRouteSnapshot.oid r) 2 then Some 0 else Some 1;
       _modalNavigationDepth := 0 |} in
  let s :=
    {| cacheByOutlet := ∅;
       outlets := fun r =>
         if Nat.eqb r 1
         then Outlet.Make false (JSBool true) ["home"] (Some 0) [7]
         else Outlet.Make true (JSBool true) ["home"] None [7];
       marks := {[1 := JSBool true]};
       destroyed := [] |} in
  fst (shouldDetach (fun r => r) location
         (snd (shouldDetach (fun r => r) location s Sample.home))
         Sample.detail)
  = JSBool false.
Proof.
  intros location s.
  refine (shouldDetach_parent_blocks_children (fun r => r) location s
            Sample.home Sample.detail 0 1 _ _ _ _ _);
    try reflexivity.
  discriminate.
Defined.

Lemma clearCache_then_back_witness :
  fst (clearCache
         (Sample.state true (JSBool true)
            {["home" := DetachedStateCache.Make [Sample.homeItem]]} ∅)
         "home")
  = Normal tt.
Proof.
  refine (proj1 (clearCache_then_back (fun r => r) (Sample.location 0)
                   (Sample.state true (JSBool true)
                      {["home" := DetachedStateCache.Make [Sample.homeItem]]}
                      ∅)
                   "home" (DetachedStateCache.Make [Sample.homeItem]) [11]
                   _ _));
    reflexivity.
Defined.

End MoreInstances.

Section MoreOutletInstances.

Lemma markActivatedRoute_spec_witness :
  let route :=
    {| routeId := 1; snapshot := SnapshotNode Sample.home [] |} in
  let w :=
    {| PageRouterOutlet.marks := ∅;
       PageRouterOutlet.outlets := fun _ => Sample.outlet false (JSBool true);
       PageRouterOutlet.trace := [] |} in
  getMark
    (PageRouterOutlet.marks
       (PageRouterOutlet.markActivatedRoute (fun r => r) (Sample.location 0)
                                            route w))
    Sample.home
  = JSBool true.
Proof.
  intros route w.
  refine (proj1 (proj1 (proj2 (proj2 (markActivatedRoute_spec (fun r => r)
                   (Sample.location 0) route w))) Sample.home _ _)).
  - apply elem_of_cons; now left.
  - reflexivity.
Defined.

Lemma detach_twice_witness :
  let this :=
    PageRouterOutlet.Make (Some 4) None "primary"
                          (Contexts (fun _ => None)) 9 in
  let w :=
    {| PageRouterOutlet.marks := ∅;
       PageRouterOutlet.outlets := fun _ => Sample.outlet false (JSBool true);
       PageRouterOutlet.trace := [] |} in
  PageRouterOutlet.trace (snd (PageRouterOutlet.detach this w))
  = [HostViewDetach 4; Emit detachEvents 4].
Proof.
  intros this w.
  exact (proj2 (proj2 (detach_twice this w)) 4 eq_refl).
Defined.

Lemma getAll_tracks_witness :
  let this :=
    DestructibleInjector.Make [] {[1]} (fun token _ _ => Some (10 + token)) in
  NoDup (DestructibleInjector.refs
           (getAll [(1, None, None); (2, None, None); (1, None, None)] this)).
Proof.
  intros this.
  refine (proj1 (getAll_tracks _ this _)).
  apply NoDup_nil_2.
Defined.

Lemma destroy_spec_witness :
  let this :=
    DestructibleInjector.Make [Some 11; None; Some 12] ∅
                              (fun _ _ _ => None) in
  DestructibleInjector.destroy (fun _ => true) this []
  = (Throw TypeError, this, [11]).
Proof.
  intros this.
  exact (proj2 (destroy_spec (fun _ => true) this []) [11] [Some 12]
           eq_refl).
Defined.

End MoreOutletInstances.
